(** * Sparky dashboard: classification and aggregation pipeline

    A shallow embedding of [dashboard.py]: the start-up guard of
    [init_supabase_client], the classification loop of [main], the activity
    histogram, the recent-conversations view and the detail columns of the
    leads and escalations tables, with the properties the specification
    states about them. *)

From Stdlib Require Import String Ascii List Sorted Permutation Lia.
From stdpp Require Import gmap strings list fin_maps sorting pretty.

Local Open Scope string_scope.
Local Open Scope nat_scope.
Local Open Scope list_scope.
Local Open Scope stdpp_scope.

(** ** Exceptions

    The failures the embedded code can raise are the [KeyError] of a
    dictionary subscript whose key is absent, the [IndexError] of [[0]] on
    an empty list, and the [ValueError] of [pd.to_datetime] on a column whose
    timestamps do not share one format. *)

Inductive exn : Type :=
  | KeyError (key : string)
  | IndexError
  | ValueError.

Inductive result (A : Type) : Type :=
  | Ok (a : A)
  | Raise (e : exn).

Arguments Ok {A} a.
Arguments Raise {A} e.

#[global] Instance result_ret : MRet result := fun A a => Ok a.

#[global] Instance result_bind : MBind result := fun A B f r =>
  match r with
  | Ok a => f a
  | Raise e => Raise e
  end.

(** [d[key]] on a dictionary whose entry for [key] is [v]. *)
Definition getitem {A : Type} (key : string) (v : option A) : result A :=
  match v with
  | Some a => Ok a
  | None => Raise (KeyError key)
  end.

(** ** Data model

    Rows come back from the store as dictionaries; a field of option type is a
    key that may be absent from the dictionary. *)

Record MessageData : Type := mkData {
  content : option string
}.

Record Message : Type := mkMessage {
  type : option string;
  data : option MessageData
}.

Record Conversation : Type := mkConversation {
  conversation_id : string;
  history : option (list Message);
  updated_at : string
}.

#[global] Instance MessageData_eq_dec : EqDecision MessageData.
Proof. solve_decision. Defined.

#[global] Instance Message_eq_dec : EqDecision Message.
Proof. solve_decision. Defined.

#[global] Instance Conversation_eq_dec : EqDecision Conversation.
Proof. solve_decision. Defined.

(** ** Python's [needle in haystack] on strings *)

Fixpoint contains (needle haystack : string) : bool :=
  String.prefix needle haystack
  || match haystack with
     | EmptyString => false
     | String _ rest => contains needle rest
     end.

(** ** The classification loop of [main] (lines 63-75) *)

Definition LEAD_TRIAL : string := "I've scheduled your 7-day free trial".
Definition LEAD_PARTY : string :=
  "I've sent these details to our party coordinators".
Definition ESCALATION : string := "I've passed your request on to our team".

(** [message['data']['content']] *)
Definition message_content (message : Message) : result string :=
  d ← getitem "data" (data message);
  getitem "content" (content d).

(** The two lists the loop appends to: [(leads, escalations)]. *)
Definition Buckets : Type := (list Conversation * list Conversation)%type.

(** Body of the inner loop: one message of [conv]. *)
Definition scan_message (conv : Conversation) (message : Message)
    (st : Buckets) : result Buckets :=
  ty ← getitem "type" (type message);
  if String.eqb ty "ai" then
    c1 ← message_content message;
    if contains LEAD_TRIAL c1 then Ok (st.1 ++ [conv], st.2)
    else
      c2 ← message_content message;
      if contains LEAD_PARTY c2 then Ok (st.1 ++ [conv], st.2)
      else
        c3 ← message_content message;
        if contains ESCALATION c3 then Ok (st.1, st.2 ++ [conv])
        else Ok st
  else Ok st.

(** [for message in ...]: the loop has no [break]. *)
Fixpoint scan_history (conv : Conversation) (messages : list Message)
    (st : Buckets) : result Buckets :=
  match messages with
  | [] => Ok st
  | message :: rest =>
      st' ← scan_message conv message st;
      scan_history conv rest st'
  end.

(** [conv.get('history', [])] *)
Definition get_history (conv : Conversation) : list Message :=
  default [] (history conv).

Fixpoint scan_conversations (conversations : list Conversation)
    (st : Buckets) : result Buckets :=
  match conversations with
  | [] => Ok st
  | conv :: rest =>
      st' ← scan_history conv (get_history conv) st;
      scan_conversations rest st'
  end.

(** [leads = []], [escalations = []], then the two nested loops. *)
Definition classify (conversations : list Conversation) : result Buckets :=
  scan_conversations conversations ([], []).

(** ** Key metrics (lines 81-85): the three counts shown *)

Record Metrics : Type := mkMetrics {
  total_conversations : nat;
  leads_generated : nat;
  escalations_to_human : nat
}.

Definition key_metrics (conversations : list Conversation) : result Metrics :=
  st ← classify conversations;
  Ok (mkMetrics (length conversations) (length st.1) (length st.2)).

(** ** Detail column of the leads and escalations tables (lines 129, 140) *)

(** The list comprehension
    [[msg['data']['content'] for msg in h
      if msg['type'] == 'ai' and needle in msg['data']['content']]]:
    the whole list is built before its first element is taken. *)
Fixpoint matching_contents (needle : string) (messages : list Message)
    : result (list string) :=
  match messages with
  | [] => Ok []
  | msg :: rest =>
      ty ← getitem "type" (type msg);
      keep ← (if String.eqb ty "ai"
              then c ← message_content msg; Ok (contains needle c)
              else Ok false);
      if (keep : bool) then
        c ← message_content msg;
        tl ← matching_contents needle rest;
        Ok (c :: tl)
      else matching_contents needle rest
  end.

(** [xs[0]] *)
Definition first_item {A : Type} (xs : list A) : result A :=
  match xs with
  | [] => Raise IndexError
  | x :: _ => Ok x
  end.

Definition details (needle : string) (conv : Conversation) : result string :=
  h ← getitem "history" (history conv);
  xs ← matching_contents needle h;
  first_item xs.

Definition LEAD_FILTER : string := "I've".
Definition ESCALATION_FILTER : string := "I've passed your request".

Definition lead_details : Conversation → result string :=
  details LEAD_FILTER.
Definition escalation_details : Conversation → result string :=
  details ESCALATION_FILTER.

(** The "Details" column of a whole table: one row per list entry. *)
Fixpoint details_column (needle : string) (rows : list Conversation)
    : result (list string) :=
  match rows with
  | [] => Ok []
  | conv :: rest =>
      d ← details needle conv;
      ds ← details_column needle rest;
      Ok (d :: ds)
  end.

(** ** Timestamps as the store returns them

    The store returns [updated_at] as ISO-8601 text in UTC, with the seconds
    followed by six fractional digits when they are not zero:
    [2024-01-01T09:30:00+00:00] or [2024-01-01T08:00:00.123456+00:00]. *)

Record date : Type := mkDate {
  year : nat;
  month : nat;
  day : nat
}.

#[global] Instance date_eq_dec : EqDecision date.
Proof. solve_decision. Defined.

#[global] Instance date_countable : Countable date.
Proof.
  apply (inj_countable' (λ d, (year d, month d, day d))
           (λ t, mkDate t.1.1 t.1.2 t.2)).
  intros []. reflexivity.
Defined.

(** The two shapes: seconds only, or seconds with microseconds. [pandas]
    infers a different format for each. *)
Inductive layout : Type := Seconds | Microseconds.

#[global] Instance layout_eq_dec : EqDecision layout.
Proof. solve_decision. Defined.

Definition digit (a : ascii) : option nat :=
  let n := nat_of_ascii a in
  if (48 <=? n) && (n <=? 57) then Some (n - 48) else None.

Fixpoint number_from (acc : nat) (s : string) : option nat :=
  match s with
  | EmptyString => Some acc
  | String a rest =>
      match digit a with
      | Some d => number_from (10 * acc + d) rest
      | None => None
      end
  end.

(** A run of exactly [width] decimal digits. *)
Definition number (width : nat) (s : string) : option nat :=
  if String.length s =? width then number_from 0 s else None.

Definition leap_year (y : nat) : bool :=
  ((y mod 4 =? 0) && negb (y mod 100 =? 0)) || (y mod 400 =? 0).

Definition days_in_month (y m : nat) : nat :=
  match m with
  | 1 | 3 | 5 | 7 | 8 | 10 | 12 => 31
  | 4 | 6 | 9 | 11 => 30
  | 2 => if leap_year y then 29 else 28
  | _ => 0
  end.

(** [YYYY-MM-DD], a day of the calendar within the range of a [pandas]
    timestamp. *)
Definition parse_date (s : string) : option date :=
  match number 4 (String.substring 0 4 s), number 2 (String.substring 5 2 s),
        number 2 (String.substring 8 2 s) with
  | Some y, Some m, Some d =>
      if String.eqb (String.substring 4 1 s) "-"
         && String.eqb (String.substring 7 1 s) "-"
         && (String.length s =? 10)
         && (1678 <=? y) && (y <=? 2261)
         && (1 <=? d) && (d <=? days_in_month y m)
      then Some (mkDate y m d)
      else None
  | _, _, _ => None
  end.

(** [HH:MM:SS] *)
Definition valid_time (s : string) : bool :=
  match number 2 (String.substring 0 2 s), number 2 (String.substring 3 2 s),
        number 2 (String.substring 6 2 s) with
  | Some h, Some m, Some sec =>
      String.eqb (String.substring 2 1 s) ":"
      && String.eqb (String.substring 5 1 s) ":"
      && (String.length s =? 8)
      && (h <? 24) && (m <? 60) && (sec <? 60)
  | _, _, _ => false
  end.

(** The calendar date and the layout of a timestamp of the store; [None]
    for any other text. *)
Definition store_timestamp (ts : string) : option (date * layout) :=
  match parse_date (String.substring 0 10 ts) with
  | Some d =>
      if String.eqb (String.substring 10 1 ts) "T"
         && valid_time (String.substring 11 8 ts)
      then
        if (String.length ts =? 25)
           && String.eqb (String.substring 19 6 ts) "+00:00"
        then Some (d, Seconds)
        else if (String.length ts =? 32)
                && String.eqb (String.substring 19 1 ts) "."
                && bool_decide (is_Some (number 6 (String.substring 20 6 ts)))
                && String.eqb (String.substring 26 6 ts) "+00:00"
        then Some (d, Microseconds)
        else None
      else None
  | None => None
  end.

(** The date portion of a timestamp, time of day discarded. *)
Definition calendar_date (ts : string) : option date :=
  fst <$> store_timestamp ts.

Definition timestamp_layout (ts : string) : option layout :=
  snd <$> store_timestamp ts.

(** The empty string, which [pandas] reads as a missing value. *)
Definition is_null (ts : string) : bool := String.eqb ts EmptyString.

(** ** Activity histogram (lines 95-100) *)

Section Histogram.
Context {Date : Type} `{Countable Date}.

(** [groupby('date').size()]: one entry per date that occurs. *)
Definition groupby_size (dates : list Date) : gmap Date nat :=
  foldr (λ d h, <[d := S (default 0 (h !! d))]> h) ∅ dates.

End Histogram.

(** The layout of the first entry that is not missing: the one from which
    [pd.to_datetime] infers the format of the column. *)
Fixpoint first_layout (column : list string) : option layout :=
  match column with
  | [] => None
  | ts :: rest => if is_null ts then first_layout rest else timestamp_layout ts
  end.

Section Pandas.
(** What lines 97-98 give on a column that holds anything else than
    timestamps of the store and missing values. *)
Variable pandas_other : list string → result (list (option date)).

(** Lines 97-98, [pd.to_datetime(df['updated_at'])] and then [.dt.date], on
    the column of [updated_at] values: a missing value stays missing ([NaT],
    here [None]); the format is inferred from the first entry that is not
    missing and every other entry has to match it, or [ValueError] is
    raised. *)
Definition date_column (column : list string)
    : result (list (option date)) :=
  if forallb (λ ts, is_null ts || bool_decide (is_Some (store_timestamp ts)))
       column
  then
    match first_layout column with
    | None => Ok (calendar_date <$> column)
    | Some l =>
        if forallb (λ ts, is_null ts
                          || bool_decide (timestamp_layout ts = Some l)) column
        then Ok (calendar_date <$> column)
        else Raise ValueError
    end
  else pandas_other column.

(** Lines 95-100: [None] when [if conversations:] is false and no chart is
    drawn; [groupby] leaves out the rows whose date is missing. *)
Definition conv_by_date (conversations : list Conversation)
    : result (option (gmap date nat)) :=
  match conversations with
  | [] => Ok None
  | _ :: _ =>
      dates ← date_column (updated_at <$> conversations);
      Ok (Some (groupby_size (omap id dates)))
  end.
End Pandas.

(** Number of conversations updated on date [d]. *)
Definition updated_on (d : date) (conversations : list Conversation) : nat :=
  length (filter (λ c, calendar_date (updated_at c) = Some d) conversations).


(** Every entry is missing or a timestamp of the store with layout [l]. *)
Definition one_layout (l : layout) (column : list string) : Prop :=
  Forall (λ ts, ts = EmptyString ∨ ∃ d, store_timestamp ts = Some (d, l))
    column.

(** Every entry is a timestamp of the store. *)
Definition store_timestamps (column : list string) : Prop :=
  Forall (λ ts, is_Some (store_timestamp ts)) column.

(** A stand-in for what [pandas] does with other columns. *)
Definition sample_pandas_other (column : list string)
    : result (list (option date)) :=
  Raise ValueError.

(** ** Recent conversations (lines 114-116)

    [sorted(..., key=lambda x: x['updated_at'], reverse=True)] is a stable
    sort on the stored [updated_at] strings, greatest first; conversations
    with equal keys keep their original order. *)

Fixpoint insert_desc (conv : Conversation) (sorted : list Conversation)
    : list Conversation :=
  match sorted with
  | [] => [conv]
  | c :: rest =>
      if String.ltb (updated_at conv) (updated_at c)
      then c :: insert_desc conv rest
      else conv :: c :: rest
  end.

Definition sorted_convs (conversations : list Conversation)
    : list Conversation :=
  foldr insert_desc [] conversations.

(** The conversations shown by the tab: [sorted_convs[:10]], nothing when
    the list is empty. *)
Definition recent_conversations (conversations : list Conversation)
    : list Conversation :=
  match conversations with
  | [] => []
  | _ => take 10 (sorted_convs conversations)
  end.

(** ** Start-up (lines 20-29) *)

Inductive event : Type :=
  | ShowError (msg : string)
  | Stop
  | CreateClient (url key : string)
  | Select (table : string).

Definition MISSING_CONFIG : string :=
  "Supabase URL or Service Key is missing. Please check your .env file.".

(** Python truthiness of [os.getenv(...)]: [None] and [''] are false. *)
Definition truthy (v : option string) : bool :=
  match v with
  | Some (String _ _) => true
  | _ => false
  end.

(** The events of the call and the client it returns; [st.stop()] ends the
    script, so no client is returned after it. [env] is the process
    environment once [load_dotenv()] has run. *)
Definition init_supabase_client (env : gmap string string)
    : list event * option (string * string) :=
  let SUPABASE_URL := env !! "SUPABASE_URL" in
  let SUPABASE_SERVICE_KEY := env !! "SUPABASE_SERVICE_KEY" in
  if negb (truthy SUPABASE_URL) || negb (truthy SUPABASE_SERVICE_KEY)
  then ([ShowError MISSING_CONFIG; Stop], None)
  else
    let url := default EmptyString SUPABASE_URL in
    let key := default EmptyString SUPABASE_SERVICE_KEY in
    ([CreateClient url key], Some (url, key)).

(** The three fetches at the top of [main]. *)
Definition fetches : list event :=
  [Select "conversation_history"; Select "documents"; Select "ingestion_log"].

(** The script: the module-level call, then [main]. *)
Definition script (env : gmap string string) : list event :=
  let '(events, supabase) := init_supabase_client env in
  match supabase with
  | None => events
  | Some _ => events ++ fetches
  end.

Definition is_data_access (e : event) : bool :=
  match e with
  | CreateClient _ _ | Select _ => true
  | _ => false
  end.

(** ** Vocabulary used to state the properties *)

Inductive Outcome : Type := Lead | Escalation.

#[global] Instance Outcome_eq_dec : EqDecision Outcome.
Proof. solve_decision. Defined.

Definition is_ai (m : Message) : bool :=
  match type m with
  | Some ty => String.eqb ty "ai"
  | None => false
  end.

Definition content_of (m : Message) : option string :=
  d ← data m; content d.

(** The outcome of the first marker phrase, in the order of the [if]/[elif]
    chain, that a text contains. *)
Definition marker_outcome (c : string) : option Outcome :=
  if contains LEAD_TRIAL c then Some Lead
  else if contains LEAD_PARTY c then Some Lead
  else if contains ESCALATION c then Some Escalation
  else None.

Definition message_outcome (m : Message) : option Outcome :=
  if is_ai m then content_of m ≫= marker_outcome else None.

(** An AI message whose content contains at least one of the three marker
    phrases. *)
Definition has_marker (m : Message) : bool :=
  is_ai m &&
  match content_of m with
  | Some c => contains LEAD_TRIAL c || contains LEAD_PARTY c
              || contains ESCALATION c
  | None => false
  end.

(** A message the loop body can process without a [KeyError]: it has a
    [type], and when that is ["ai"] it has [data] with [content]. *)
Definition scannable (m : Message) : Prop :=
  is_Some (type m) ∧ (is_ai m = true → is_Some (content_of m)).

(** A message with both fields present. *)
Definition well_formed (m : Message) : Prop :=
  is_Some (type m) ∧ is_Some (content_of m).

Definition scannable_conv (conv : Conversation) : Prop :=
  Forall scannable (get_history conv).

Definition well_formed_conv (conv : Conversation) : Prop :=
  Forall well_formed (get_history conv).

(** Appending [conv] to the bucket of an outcome. *)
Definition record (conv : Conversation) (o : option Outcome) (st : Buckets)
    : Buckets :=
  match o with
  | Some Lead => (st.1 ++ [conv], st.2)
  | Some Escalation => (st.1, st.2 ++ [conv])
  | None => st
  end.

(** Number of messages of a history with outcome [o]. *)
Definition occurrences (o : Outcome) (messages : list Message) : nat :=
  length (filter (λ m, message_outcome m = Some o) messages).

(** Number of AI messages of a history containing a marker phrase. *)
Definition matching_messages (messages : list Message) : nat :=
  length (filter (λ m, has_marker m = true) messages).

(** Number of times [conv] occurs in a list. *)
Definition times (conv : Conversation) (l : list Conversation) : nat :=
  length (filter (λ c, c = conv) l).

(** *** First-match-wins, as the specification words it

    The outcome of the first message, in order, that matches a marker phrase;
    the scan of the conversation stops there. *)
Fixpoint first_match (messages : list Message) : option Outcome :=
  match messages with
  | [] => None
  | m :: rest =>
      match message_outcome m with
      | Some o => Some o
      | None => first_match rest
      end
  end.

Definition first_match_classify (conversations : list Conversation)
    : Buckets :=
  foldl (λ st conv, record conv (first_match (get_history conv)) st)
        ([], []) conversations.

(** The content of the first message with outcome [o]: the message that
    caused the classification. *)
Fixpoint triggering_content (o : Outcome) (messages : list Message)
    : option string :=
  match messages with
  | [] => None
  | m :: rest =>
      if decide (message_outcome m = Some o) then content_of m
      else triggering_content o rest
  end.

(** The content of the first AI message whose content contains [needle]. *)
Fixpoint first_ai_containing (needle : string) (messages : list Message)
    : option string :=
  match messages with
  | [] => None
  | m :: rest =>
      match content_of m with
      | Some c =>
          if is_ai m && contains needle c then Some c
          else first_ai_containing needle rest
      | None => first_ai_containing needle rest
      end
  end.

#[global] Instance scannable_dec m : Decision (scannable m).
Proof. unfold scannable. apply _. Defined.

(** What a batch puts in the bucket of [o]: every conversation, once per
    message with that outcome, in batch order. *)
Definition bucket (o : Outcome) (conversations : list Conversation)
    : list Conversation :=
  conv ← conversations; replicate (occurrences o (get_history conv)) conv.

(** A message the loop body cannot process: it has no [type], or it is an AI
    message without [data] or without [content]. *)
Definition missing_field (m : Message) : Prop :=
  type m = None ∨ (is_ai m = true ∧ content_of m = None).

(** A message of another type, or an AI message whose content contains none
    of the three marker phrases. *)
Definition no_marker_message (m : Message) : Prop :=
  (∃ ty, type m = Some ty ∧ ty ≠ "ai")
  ∨ (type m = Some "ai"
     ∧ ∃ c, content_of m = Some c
            ∧ contains LEAD_TRIAL c = false
            ∧ contains LEAD_PARTY c = false
            ∧ contains ESCALATION c = false).

(** What the comprehension keeps of one message. *)
Definition kept (needle : string) (m : Message) : option string :=
  if is_ai m
  then c ← content_of m; if contains needle c then Some c else None
  else None.

(** Every AI message of the history that contains [needle] has outcome [o]. *)
Definition no_stray (needle : string) (o : Outcome) (h : list Message)
    : Prop :=
  Forall (λ m, ∀ c, kept needle m = Some c → message_outcome m = Some o) h.

(** [a] was updated strictly after [b], in the order [sorted] compares the
    stored [updated_at] strings. *)
Definition newer (a b : Conversation) : Prop :=
  String.ltb (updated_at b) (updated_at a) = true.

(** [a] was updated no earlier than [b]. *)
Definition not_older (a b : Conversation) : Prop :=
  String.le (updated_at b) (updated_at a).

(** The two settings read from the environment. *)
Definition URL : string := "SUPABASE_URL".
Definition SERVICE_KEY : string := "SUPABASE_SERVICE_KEY".

(** ** Sample data *)

Definition ai (text : string) : Message :=
  mkMessage (Some "ai") (Some (mkData (Some text))).
Definition human (text : string) : Message :=
  mkMessage (Some "human") (Some (mkData (Some text))).

(** The conversation of the specification's first-match example. *)
Definition conv_escalated_then_trial : Conversation :=
  mkConversation "c-1"
    (Some [ai "I've passed your request on to our team";
           ai "I've scheduled your 7-day free trial"])
    "2024-01-01T09:30:00+00:00".

Definition conv_trial : Conversation :=
  mkConversation "c-2"
    (Some [human "Can I try it?";
           ai "Great news! I've scheduled your 7-day free trial."])
    "2024-01-01T17:05:00+00:00".

(** An AI message whose [data] has no [content] key. *)
Definition conv_no_content : Conversation :=
  mkConversation "c-3"
    (Some [mkMessage (Some "ai") (Some (mkData None))])
    "2024-01-02T08:00:00+00:00".

(** The same moment as [conv_no_content], stored with its microseconds. *)
Definition conv_microseconds : Conversation :=
  mkConversation "c-12" (Some [human "Hello"])
    "2024-01-02T08:00:00.123456+00:00".



Definition conv_empty_history : Conversation :=
  mkConversation "c-3" (Some []) "2024-01-02T08:00:00+00:00".

(** An earlier AI message that says "I've" without any marker phrase. *)
Definition conv_chatty_lead : Conversation :=
  mkConversation "c-4"
    (Some [ai "I've got a few questions first.";
           ai "I've scheduled your 7-day free trial"])
    "2024-01-03T10:00:00+00:00".

Definition conv_two_trials : Conversation :=
  mkConversation "c-5"
    (Some [ai "I've scheduled your 7-day free trial";
           human "Can we move it?";
           ai "Done, I've scheduled your 7-day free trial for Monday."])
    "2024-01-04T12:00:00+00:00".

Definition sample_batch : list Conversation :=
  [conv_trial; conv_empty_history].

Definition conv_malformed : Conversation :=
  mkConversation "c-6"
    (Some [mkMessage (Some "ai") (Some (mkData None));
           ai "I've scheduled your 7-day free trial"])
    "2024-01-05T12:00:00+00:00".

(** [conv_malformed] without its malformed message. *)
Definition conv_repaired : Conversation :=
  mkConversation "c-6"
    (Some [ai "I've scheduled your 7-day free trial"])
    "2024-01-05T12:00:00+00:00".

(** A human message without [content]. *)
Definition conv_human_no_content : Conversation :=
  mkConversation "c-7"
    (Some [mkMessage (Some "human") (Some (mkData None));
           ai "I've passed your request on to our team"])
    "2024-01-05T13:00:00+00:00".

Definition conv_small_talk : Conversation :=
  mkConversation "c-8"
    (Some [human "I've scheduled your 7-day free trial";
           ai "Hello! How can I help you today?"])
    "2024-01-06T10:00:00+00:00".

(** An earlier AI message with the escalation filter's words but not the
    marker phrase. *)
Definition conv_stray_escalation : Conversation :=
  mkConversation "c-9"
    (Some [ai "I've passed your request for a quote to sales already.";
           ai "I've passed your request on to our team"])
    "2024-01-07T10:00:00+00:00".

(** Fifteen conversations, updated on the first fifteen days of a month in an
    order that is not sorted. *)
Definition stamped (day : string) : Conversation :=
  mkConversation ("day-" +:+ day) (Some [])
    ("2024-03-" +:+ day +:+ "T12:00:00+00:00").

Definition fifteen : list Conversation :=
  stamped <$> ["07"; "01"; "15"; "03"; "11"; "02"; "09"; "14"; "05"; "13";
               "04"; "12"; "06"; "10"; "08"].

(** An environment in which both settings are present, the first empty (a
    line [SUPABASE_URL=] in the [.env] file). *)
Definition env_empty_url : gmap string string :=
  <[URL := EmptyString]> (<[SERVICE_KEY := "secret"]> ∅).

Definition env_complete : gmap string string :=
  <[URL := "https://project.supabase.co"]> (<[SERVICE_KEY := "secret"]> ∅).

Definition env_no_key : gmap string string :=
  <[URL := "https://project.supabase.co"]> ∅.

(** ** Further vocabulary *)

(** An AI message whose content contains one of the two lead phrases. *)
Definition lead_message (m : Message) : Prop :=
  type m = Some "ai"
  ∧ ∃ c, content_of m = Some c
         ∧ (contains LEAD_TRIAL c = true ∨ contains LEAD_PARTY c = true).

(** An AI message whose content contains the escalation phrase and neither
    lead phrase: the only messages that reach the last [elif]. *)
Definition escalation_message (m : Message) : Prop :=
  type m = Some "ai"
  ∧ ∃ c, content_of m = Some c
         ∧ contains ESCALATION c = true
         ∧ contains LEAD_TRIAL c = false
         ∧ contains LEAD_PARTY c = false.

(** The key whose subscript fails on a message with a missing field. *)
Definition missing_key (m : Message) : string :=
  match type m with
  | None => "type"
  | Some _ =>
      match data m with
      | None => "data"
      | Some _ => "content"
      end
  end.

(** A conversation with a lead phrase and the escalation phrase in a single
    AI message. *)
Definition conv_both_in_one : Conversation :=
  mkConversation "c-10"
    (Some [ai "I've scheduled your 7-day free trial and I've passed your request on to our team"])
    "2024-01-08T10:00:00+00:00".

(** A message without a [type] key. *)
Definition conv_no_type : Conversation :=
  mkConversation "c-11"
    (Some [human "Hi"; mkMessage None (Some (mkData (Some "Hello")))])
    "2024-01-09T10:00:00+00:00".

(** ** The ingestion log (lines 45-50) *)

(** [fetch_ingestion_log] on the rows of the response: the [updated_at] of
    the first row, [None] when there is no row. *)
Definition fetch_ingestion_log (response_data : list string) : option string :=
  match response_data with
  | [] => None
  | row :: _ => Some row
  end.

(** ** The page drawn by [main] (lines 53-143)

    Each call of the UI framework that draws something is a widget of the
    page, in call order. The formatting of a timestamp belongs to pandas
    and [str.capitalize] to the language: they are parameters. *)

Section Rendering.
(** What lines 97-98 give on a column that holds anything else than
    timestamps of the store and missing values. *)
Variable pandas_other : list string → result (list (option date)).
(** [pd.to_datetime(ts).strftime('%Y-%m-%d %H:%M')] *)
Variable strftime : string → string.
(** [str.capitalize] *)
Variable capitalize : string → string.

(** A row of the leads or escalations table. *)
Record TableRow : Type := mkTableRow {
  row_conversation_id : string;
  row_last_updated : string;
  row_details : string
}.

Inductive widget : Type :=
  | StTitle (text : string)
  | StMarkdown (text : string)
  | StHeader (text : string)
  | StColumns (n : nat)
  | StMetric (label value : string)
  | StDivider
  | StSubheader (text : string)
  | StLineChart (chart : gmap date nat)
  | StTabs (labels : list string)
  | StExpander (label : string)
  | StWrite (text : string)
  | StInfo (text : string)
  | StTable (rows : list TableRow).

(** A computation that draws widgets and may raise: what was drawn before an
    exception stays on the page. *)
Definition render (A : Type) : Type := (list widget * result A)%type.

#[global] Instance render_ret : MRet render := λ A a, ([], Ok a).

#[global] Instance render_bind : MBind render := λ A B f r,
  match r.2 with
  | Ok a => (r.1 ++ (f a).1, (f a).2)
  | Raise e => (r.1, Raise e)
  end.

Definition show (w : widget) : render unit := ([w], Ok tt).

Definition eval {A : Type} (r : result A) : render A := ([], r).

(** [for x in xs: body] *)
Fixpoint for_each {A : Type} (xs : list A) (body : A → render unit)
    : render unit :=
  match xs with
  | [] => mret tt
  | x :: rest => body x;; for_each rest body
  end.

(** [f"{knowledge_base_count}"]: the count of the response, [None] when the
    response carries none. *)
Definition format_count (knowledge_base_count : option nat) : string :=
  match knowledge_base_count with
  | Some n => pretty n
  | None => "None"
  end.

(** One line of an expander (line 119). *)
Definition show_message (message : Message) : render unit :=
  ty ← eval (getitem "type" (type message));
  c ← eval (message_content message);
  show (StWrite ("**" +:+ capitalize ty +:+ ":** " +:+ c)).

(** One expander of the first tab (lines 117-119). *)
Definition show_conversation (conv : Conversation) : render unit :=
  show (StExpander ("Conversation ID: " +:+ conversation_id conv));;
  h ← eval (getitem "history" (history conv));
  for_each h show_message.

(** The first tab (lines 112-121). *)
Definition show_recent (conversations : list Conversation) : render unit :=
  show (StSubheader "Recent Conversations");;
  match conversations with
  | [] => show (StInfo "No conversations yet.")
  | _ :: _ => for_each (take 10 (sorted_convs conversations)) show_conversation
  end.

(** The list of dictionaries given to [pd.DataFrame] (lines 126-130 and
    137-141): the three values of a row are computed in this order. *)
Fixpoint table_rows (needle : string) (rows : list Conversation)
    : result (list TableRow) :=
  match rows with
  | [] => Ok []
  | conv :: rest =>
      d ← details needle conv;
      rs ← table_rows needle rest;
      Ok (mkTableRow (conversation_id conv) (strftime (updated_at conv)) d
          :: rs)
  end.

(** The second and third tabs (lines 123-143). *)
Definition show_table (title empty needle : string)
    (rows : list Conversation) : render unit :=
  show (StSubheader title);;
  match rows with
  | [] => show (StInfo empty)
  | _ :: _ => rs ← eval (table_rows needle rows); show (StTable rs)
  end.

Definition show_leads : list Conversation → render unit :=
  show_table "Leads" "No leads generated yet." LEAD_FILTER.

Definition show_escalations : list Conversation → render unit :=
  show_table "Escalations" "No escalations yet." ESCALATION_FILTER.

(** The "Key Metrics" part (lines 78-89). *)
Definition show_key_metrics (conversations leads escalations : list Conversation)
    (knowledge_base_count : option nat) (last_ingested : option string)
    : render unit :=
  show (StHeader "📊 Key Metrics");;
  show (StColumns 4);;
  show (StMetric "Total Conversations"
          (pretty (length conversations) +:+ " 💬"));;
  show (StMetric "Leads Generated" (pretty (length leads) +:+ " 📈"));;
  show (StMetric "Escalations to Human"
          (pretty (length escalations) +:+ " 🧑‍💻"));;
  show (StMetric "KB Documents"
          (format_count knowledge_base_count +:+ " 📄"));;
  if truthy last_ingested
  then show (StMarkdown ("**Last Update:** "
                         +:+ strftime (default EmptyString last_ingested)))
  else mret tt.

(** The "Visualizations" part (lines 94-103). *)
Definition show_visualizations (conversations : list Conversation)
    : render unit :=
  show (StHeader "📈 Visualizations");;
  conv_by_date ← eval (conv_by_date pandas_other conversations);
  match conv_by_date with
  | Some chart =>
      show (StSubheader "Conversations Over Time");;
      show (StLineChart chart)
  | None => mret tt
  end.

(** The "Data Tables" part (lines 108-143). *)
Definition show_data_tables (conversations leads escalations : list Conversation)
    : render unit :=
  show (StHeader "📄 Data Tables");;
  show (StTabs ["Recent Conversations"; "Leads"; "Escalations"]);;
  show_recent conversations;;
  show_leads leads;;
  show_escalations escalations.

Definition TITLE : string := "🤖 Sparky AI Agent Dashboard".
Definition INTRODUCTION : string :=
  "### A real-time overview of the IPIC WhatsApp Bot's performance.".

(** [main], given what the three fetches returned. *)
Definition main (conversations : list Conversation)
    (knowledge_base_count : option nat) (last_ingested : option string)
    : render unit :=
  show (StTitle TITLE);;
  show (StMarkdown INTRODUCTION);;
  st ← eval (classify conversations);
  let leads := st.1 in
  let escalations := st.2 in
  show_key_metrics conversations leads escalations
    knowledge_base_count last_ingested;;
  show StDivider;;
  show_visualizations conversations;;
  show StDivider;;
  show_data_tables conversations leads escalations.
(** The widgets the first tab can draw. *)
Definition first_tab_widget (w : widget) : bool :=
  match w with
  | StSubheader text => bool_decide (text = "Recent Conversations")
  | StInfo _ | StExpander _ | StWrite _ => true
  | _ => false
  end.

(** The widgets drawn before the tabs. *)
Definition head_widget (w : widget) : bool :=
  match w with
  | StTitle _ | StMarkdown _ | StHeader _ | StColumns _ | StMetric _ _
  | StDivider | StLineChart _ | StTabs _ => true
  | StSubheader text => bool_decide (text = "Conversations Over Time")
  | _ => false
  end.
(** Number of expanders among some widgets. *)
Definition is_expander (w : widget) : bool :=
  match w with
  | StExpander _ => true
  | _ => false
  end.

Definition expanders (ws : list widget) : nat :=
  length (filter (λ w, is_expander w = true) ws).
End Rendering.

(** A conversation the first tab can draw: it has a history, and every
    message has its type and its content. *)
Definition renderable (conv : Conversation) : Prop :=
  is_Some (history conv) ∧ Forall well_formed (get_history conv).

(** Sample renderers for timestamps in ISO format and types in ASCII. *)
Definition sample_strftime (ts : string) : string :=
  String.substring 0 10 ts +:+ " " +:+ String.substring 11 5 ts.

Definition ascii_upper (a : ascii) : ascii :=
  let n := nat_of_ascii a in
  if (97 <=? n) && (n <=? 122) then ascii_of_nat (n - 32) else a.

Definition ascii_lower (a : ascii) : ascii :=
  let n := nat_of_ascii a in
  if (65 <=? n) && (n <=? 90) then ascii_of_nat (n + 32) else a.

Fixpoint string_lower (s : string) : string :=
  match s with
  | EmptyString => EmptyString
  | String a rest => String (ascii_lower a) (string_lower rest)
  end.

Definition sample_capitalize (s : string) : string :=
  match s with
  | EmptyString => EmptyString
  | String a rest => String (ascii_upper a) (string_lower rest)
  end.

(** Two conversations updated at valid moments, one stored without and one
    with its microseconds. *)
Definition batch_mixed_timestamps : list Conversation :=
  [conv_trial; conv_microseconds].

(** A batch that the pass classifies and whose first tab cannot be drawn. *)
Definition batch_hidden_tables : list Conversation :=
  [conv_trial; conv_human_no_content].

(** * Properties *)

(** ** Tactics *)

Ltac unfold_result := unfold mbind, result_bind, mret, result_ret in *.

(** ** Samples, evaluated *)

Example classify_sample :
  classify [conv_trial; conv_escalated_then_trial]
  = Ok ([conv_trial; conv_escalated_then_trial], [conv_escalated_then_trial]).
Proof. vm_compute. reflexivity. Qed.

Example store_timestamp_sample :
  store_timestamp "2024-01-01T09:30:00+00:00" = Some (mkDate 2024 1 1, Seconds)
  ∧ store_timestamp "2024-02-29T08:00:00.123456+00:00"
    = Some (mkDate 2024 2 29, Microseconds)
  ∧ store_timestamp "2023-02-29T08:00:00+00:00" = None
  ∧ store_timestamp "2024-01-01 09:30:00" = None
  ∧ store_timestamp EmptyString = None.
Proof. vm_compute. auto. Qed.

Example histogram_sample :
  ∃ h, conv_by_date sample_pandas_other
         [conv_escalated_then_trial; conv_no_content; conv_trial] = Ok (Some h)
       ∧ h !! mkDate 2024 1 1 = Some 2 ∧ h !! mkDate 2024 1 2 = Some 1
       ∧ h !! mkDate 2024 1 3 = None ∧ size h = 2.
Proof. eexists. split; [reflexivity|]. vm_compute. tauto. Qed.

Example recent_sample :
  recent_conversations [conv_escalated_then_trial; conv_chatty_lead; conv_trial]
  = [conv_chatty_lead; conv_trial; conv_escalated_then_trial].
Proof. vm_compute. reflexivity. Qed.

(** ** The loop body, message by message *)

Lemma scan_message_scannable conv m st :
  scannable m →
  scan_message conv m st = Ok (record conv (message_outcome m) st).
Proof.
  intros [[ty Hty] Hc].
  unfold scan_message, message_outcome, is_ai, message_content, content_of in *.
  rewrite Hty in *. simpl. unfold_result. simpl.
  destruct (String.eqb ty "ai") eqn:Hai; [|reflexivity].
  destruct (Hc eq_refl) as [c Hcont].
  destruct (data m) as [d|]; simpl in *; [|discriminate].
  rewrite Hcont. simpl. unfold marker_outcome.
  destruct (contains LEAD_TRIAL c); [reflexivity|].
  destruct (contains LEAD_PARTY c); [reflexivity|].
  destruct (contains ESCALATION c); reflexivity.
Qed.

Lemma scan_message_not_scannable conv m st :
  ¬ scannable m → ∃ key, scan_message conv m st = Raise (KeyError key).
Proof.
  intros Hn.
  unfold scan_message, message_content. unfold_result.
  destruct (type m) as [ty|] eqn:Hty; simpl; [|eauto].
  destruct (String.eqb ty "ai") eqn:Hai.
  - destruct (data m) as [d|] eqn:Hd; simpl; [|eauto].
    destruct (content d) as [c|] eqn:Hc; simpl; [|eauto].
    exfalso. apply Hn. split; [eauto|].
    intros _. unfold content_of. rewrite Hd. simpl. rewrite Hc. eauto.
  - exfalso. apply Hn. split; [eauto|].
    unfold is_ai. rewrite Hty, Hai. discriminate.
Qed.

(** A message that is not from the assistant changes nothing, whatever its
    content. *)
Lemma scan_message_not_ai conv m st ty :
  type m = Some ty → ty ≠ "ai" → scan_message conv m st = Ok st.
Proof.
  intros Hty Hne. unfold scan_message. rewrite Hty. unfold_result. simpl.
  destruct (String.eqb_spec ty "ai"); [contradiction|reflexivity].
Qed.

Lemma occurrences_cons o m h :
  occurrences o (m :: h)
  = (if decide (message_outcome m = Some o) then 1 else 0) + occurrences o h.
Proof.
  unfold occurrences. rewrite filter_cons.
  destruct (decide (message_outcome m = Some o)); reflexivity.
Qed.

Lemma scan_history_scannable conv h : ∀ st,
  Forall scannable h →
  scan_history conv h st
  = Ok (st.1 ++ replicate (occurrences Lead h) conv,
        st.2 ++ replicate (occurrences Escalation h) conv).
Proof.
  induction h as [|m h IH]; intros [l e] Hall; simpl.
  - rewrite !app_nil_r. reflexivity.
  - inversion Hall as [|? ? Hm Hh]; subst.
    rewrite (scan_message_scannable _ _ _ Hm). unfold_result.
    rewrite (IH _ Hh), !occurrences_cons.
    destruct (message_outcome m) as [[]|]; simpl;
      repeat case_decide; try congruence; simpl;
      rewrite <- ?app_assoc; reflexivity.
Qed.

Lemma scan_history_not_scannable conv h : ∀ st,
  ¬ Forall scannable h →
  ∃ key, scan_history conv h st = Raise (KeyError key).
Proof.
  induction h as [|m h IH]; intros st Hn; simpl.
  - exfalso. apply Hn. constructor.
  - destruct (decide (scannable m)) as [Hm|Hm].
    + rewrite (scan_message_scannable _ _ _ Hm). unfold_result.
      apply IH. intros Hh. apply Hn. constructor; assumption.
    + destruct (scan_message_not_scannable conv m st Hm) as [k ->].
      unfold_result. eauto.
Qed.

(** ** The whole pass *)

Lemma bucket_cons o conv convs :
  bucket o (conv :: convs)
  = replicate (occurrences o (get_history conv)) conv ++ bucket o convs.
Proof. reflexivity. Qed.

Lemma scan_conversations_scannable convs : ∀ st,
  Forall scannable_conv convs →
  scan_conversations convs st
  = Ok (st.1 ++ bucket Lead convs, st.2 ++ bucket Escalation convs).
Proof.
  induction convs as [|conv convs IH]; intros [l e] Hall;
    cbn [scan_conversations].
  - simpl. rewrite !app_nil_r. reflexivity.
  - inversion Hall as [|? ? Hc Hcs]; subst.
    rewrite (scan_history_scannable _ _ _ Hc). unfold_result.
    rewrite (IH _ Hcs), !bucket_cons. cbn [fst snd].
    rewrite <- !app_assoc. reflexivity.
Qed.

Lemma scan_conversations_not_scannable convs : ∀ st,
  ¬ Forall scannable_conv convs →
  ∃ key, scan_conversations convs st = Raise (KeyError key).
Proof.
  induction convs as [|conv convs IH]; intros st Hn; simpl.
  - exfalso. apply Hn. constructor.
  - destruct (decide (Forall scannable (get_history conv))) as [Hc|Hc].
    + rewrite (scan_history_scannable _ _ _ Hc). unfold_result.
      apply IH. intros Hcs. apply Hn. constructor; assumption.
    + destruct (scan_history_not_scannable conv _ st Hc) as [k ->].
      unfold_result. eauto.
Qed.

Lemma classify_scannable convs :
  Forall scannable_conv convs →
  classify convs = Ok (bucket Lead convs, bucket Escalation convs).
Proof. intros Hall. apply (scan_conversations_scannable convs ([], []) Hall). Qed.

Lemma classify_Ok_inv convs l e :
  classify convs = Ok (l, e) →
  Forall scannable_conv convs
  ∧ l = bucket Lead convs ∧ e = bucket Escalation convs.
Proof.
  intros Hok.
  destruct (decide (Forall scannable_conv convs)) as [Hall|Hn].
  - rewrite (classify_scannable _ Hall) in Hok. inversion Hok. auto.
  - destruct (scan_conversations_not_scannable convs ([], []) Hn) as [k Hk].
    unfold classify in Hok. congruence.
Qed.

Lemma elem_of_bucket o conv convs :
  conv ∈ bucket o convs
  ↔ conv ∈ convs ∧ 0 < occurrences o (get_history conv).
Proof.
  unfold bucket. rewrite list_elem_of_bind. split.
  - intros (c & Hin & Hc). apply elem_of_replicate in Hin as [-> Hn].
    split; [assumption|lia].
  - intros [Hc Hn]. exists conv. split; [|assumption].
    apply elem_of_replicate. split; [reflexivity|lia].
Qed.

(** ** Matching messages and outcomes *)

Lemma has_marker_outcome m :
  has_marker m = true ↔ is_Some (message_outcome m).
Proof.
  unfold has_marker, message_outcome.
  destruct (is_ai m); simpl; [|split; [discriminate|intros [? ?]; discriminate]].
  destruct (content_of m) as [c|]; simpl;
    [|split; [discriminate|intros [? ?]; discriminate]].
  unfold marker_outcome.
  destruct (contains LEAD_TRIAL c), (contains LEAD_PARTY c),
    (contains ESCALATION c); simpl; split; eauto;
    try discriminate; intros [? ?]; discriminate.
Qed.

Lemma matching_messages_cons m h :
  matching_messages (m :: h)
  = (if has_marker m then 1 else 0) + matching_messages h.
Proof.
  unfold matching_messages. rewrite filter_cons.
  destruct (has_marker m); case_decide; try congruence; reflexivity.
Qed.

Lemma occurrences_sum h :
  occurrences Lead h + occurrences Escalation h = matching_messages h.
Proof.
  induction h as [|m h IH]; [reflexivity|].
  rewrite !occurrences_cons, matching_messages_cons, <- IH.
  pose proof (has_marker_outcome m) as Hm.
  destruct (message_outcome m) as [[]|]; destruct (has_marker m);
    repeat case_decide; try congruence; try lia.
  - exfalso. assert (false = true) by (apply Hm; eauto). discriminate.
  - exfalso. assert (false = true) by (apply Hm; eauto). discriminate.
  - exfalso. destruct Hm as [Hm _]. destruct (Hm eq_refl). discriminate.
Qed.

(** With at most one matching message, the buckets of the loop are those of
    first-match-wins. *)
Lemma single_match_first_match h :
  matching_messages h ≤ 1 →
  (occurrences Lead h, occurrences Escalation h)
  = match first_match h with
    | Some Lead => (1, 0)
    | Some Escalation => (0, 1)
    | None => (0, 0)
    end.
Proof.
  induction h as [|m h IH]; intros Hle; [reflexivity|].
  rewrite matching_messages_cons in Hle.
  rewrite !occurrences_cons. simpl.
  pose proof (has_marker_outcome m) as Hm.
  pose proof (occurrences_sum h) as Hsum.
  destruct (message_outcome m) as [o|] eqn:Ho.
  - assert (has_marker m = true) as Hmk by (apply Hm; eauto).
    rewrite Hmk in Hle.
    assert (occurrences Lead h = 0 ∧ occurrences Escalation h = 0) as [-> ->]
      by lia.
    destruct o; repeat case_decide; try congruence; reflexivity.
  - repeat case_decide; try congruence. simpl.
    apply IH. destruct (has_marker m); lia.
Qed.

Lemma record_occurrences conv h (st : Buckets) :
  matching_messages h ≤ 1 →
  (st.1 ++ replicate (occurrences Lead h) conv,
   st.2 ++ replicate (occurrences Escalation h) conv)
  = record conv (first_match h) st.
Proof.
  intros Hle. pose proof (single_match_first_match h Hle) as Heq.
  destruct st as [l e].
  destruct (first_match h) as [[]|]; injection Heq as H1 H2;
    rewrite H1, H2; simpl; rewrite ?app_nil_r; reflexivity.
Qed.

(** ** C1: first match wins *)

(** C1, as stated, fails: the loop has no [break], so the conversation whose
    AI messages are the escalation phrase and then the trial phrase is
    appended to the escalations and to the leads, whereas first-match-wins
    records it as an escalation only. *)
Lemma first_match_wins_counterexample :
  classify [conv_escalated_then_trial]
  = Ok ([conv_escalated_then_trial], [conv_escalated_then_trial])
  ∧ first_match_classify [conv_escalated_then_trial]
    = ([], [conv_escalated_then_trial])
  ∧ classify [conv_escalated_then_trial]
    ≠ Ok (first_match_classify [conv_escalated_then_trial]).
Proof. vm_compute. repeat split. discriminate. Qed.

(** C1 (amended): the messages of a conversation are scanned in order and the
    scan never stops early: each AI message whose content contains a marker
    phrase appends the conversation once to the bucket of the first phrase of
    the chain it contains. When at most one message of the conversation
    matches, this is first-match-wins and the conversation is in at most one
    bucket. *)
Theorem scan_records_every_match conv (st : Buckets) :
  scannable_conv conv →
  scan_history conv (get_history conv) st
  = Ok (st.1 ++ replicate (occurrences Lead (get_history conv)) conv,
        st.2 ++ replicate (occurrences Escalation (get_history conv)) conv)
  ∧ (matching_messages (get_history conv) ≤ 1 →
     scan_history conv (get_history conv) st
     = Ok (record conv (first_match (get_history conv)) st)).
Proof.
  intros Hall. split.
  - apply scan_history_scannable, Hall.
  - intros Hle. rewrite (scan_history_scannable _ _ _ Hall).
    f_equal. apply record_occurrences, Hle.
Qed.

Lemma scan_records_every_match_witness :
  scannable_conv conv_trial
  ∧ scan_history conv_trial (get_history conv_trial) ([], [])
    = Ok ([conv_trial], []).
Proof.
  assert (scannable_conv conv_trial) as Hs.
  { repeat constructor; simpl; eauto. }
  split; [exact Hs|].
  destruct (scan_records_every_match conv_trial ([], []) Hs) as [_ Hfirst].
  rewrite Hfirst; [reflexivity|]. vm_compute. lia.
Defined.

(** ** C2: the buckets as a partition *)

(** C2, as stated, fails: a conversation with an escalation message and a
    lead message is in both lists, and a conversation with two lead messages
    is twice in the leads. *)
Lemma partition_counterexample :
  (∃ l e, classify [conv_escalated_then_trial] = Ok (l, e)
          ∧ conv_escalated_then_trial ∈ l ∧ conv_escalated_then_trial ∈ e)
  ∧ (∃ l e, classify [conv_two_trials] = Ok (l, e) ∧ ¬ NoDup l).
Proof.
  split.
  - exists [conv_escalated_then_trial], [conv_escalated_then_trial].
    split; [vm_compute; reflexivity|]. split; apply list_elem_of_here.
  - exists [conv_two_trials; conv_two_trials], [].
    split; [vm_compute; reflexivity|].
    intros Hnd. apply NoDup_cons in Hnd as [Hnin _].
    apply Hnin, list_elem_of_here.
Qed.

Lemma first_match_classify_from convs : ∀ st,
  Forall (λ c, matching_messages (get_history c) ≤ 1) convs →
  foldl (λ st conv, record conv (first_match (get_history conv)) st) st convs
  = (st.1 ++ bucket Lead convs, st.2 ++ bucket Escalation convs).
Proof.
  induction convs as [|conv convs IH]; intros [l e] Hall; cbn [foldl].
  - simpl. rewrite !app_nil_r. reflexivity.
  - inversion Hall as [|? ? Hc Hcs]; subst.
    rewrite <- (record_occurrences conv _ (l, e) Hc), (IH _ Hcs).
    rewrite !bucket_cons. cbn [fst snd]. rewrite <- !app_assoc. reflexivity.
Qed.

Lemma NoDup_bucket o convs :
  NoDup convs →
  Forall (λ c, matching_messages (get_history c) ≤ 1) convs →
  NoDup (bucket o convs).
Proof.
  intros Hnd Hall. unfold bucket. apply NoDup_bind; [| |assumption].
  - intros c1 c2 y _ _ H1 H2.
    apply elem_of_replicate_inv in H1, H2. congruence.
  - intros c Hc. rewrite Forall_forall in Hall. specialize (Hall c Hc).
    pose proof (occurrences_sum (get_history c)) as Hsum.
    destruct (occurrences o (get_history c)) as [|[|n]] eqn:Hn; simpl.
    + constructor.
    + apply NoDup_singleton.
    + destruct o; lia.
Qed.

(** C2 (amended): for a batch of distinct conversations, all processed without
    error, in which every conversation has at most one AI message containing
    a marker phrase, the pass yields the buckets of first-match-wins, and they
    form a partition: no conversation is twice in a list, none is in both, and
    both hold conversations of the batch only. *)
Theorem classify_partition convs :
  NoDup convs →
  Forall scannable_conv convs →
  Forall (λ c, matching_messages (get_history c) ≤ 1) convs →
  ∃ l e, classify convs = Ok (l, e)
         ∧ (l, e) = first_match_classify convs
         ∧ NoDup l ∧ NoDup e
         ∧ (∀ c, c ∈ l → c ∉ e)
         ∧ (∀ c, c ∈ l ∨ c ∈ e → c ∈ convs).
Proof.
  intros Hnd Hscan Hone.
  exists (bucket Lead convs), (bucket Escalation convs).
  split; [apply classify_scannable, Hscan|].
  split; [symmetry; apply (first_match_classify_from convs ([], []) Hone)|].
  split; [apply NoDup_bucket; assumption|].
  split; [apply NoDup_bucket; assumption|].
  split.
  - intros c Hl He.
    apply elem_of_bucket in Hl as [Hc Hl], He as [_ He].
    rewrite Forall_forall in Hone. specialize (Hone c Hc).
    pose proof (occurrences_sum (get_history c)). lia.
  - intros c [Hc|Hc]; apply elem_of_bucket in Hc as [Hc _]; exact Hc.
Qed.

Lemma classify_partition_witness :
  NoDup sample_batch
  ∧ Forall scannable_conv sample_batch
  ∧ Forall (λ c, matching_messages (get_history c) ≤ 1) sample_batch
  ∧ ∃ l e, classify sample_batch = Ok (l, e)
           ∧ (l, e) = first_match_classify sample_batch
           ∧ NoDup l ∧ NoDup e
           ∧ (∀ c, c ∈ l → c ∉ e)
           ∧ (∀ c, c ∈ l ∨ c ∈ e → c ∈ sample_batch).
Proof.
  assert (NoDup sample_batch) as Hnd.
  { apply NoDup_cons. split; [|apply NoDup_singleton].
    intros Hin. apply list_elem_of_singleton in Hin. discriminate. }
  assert (Forall scannable_conv sample_batch) as Hscan.
  { repeat constructor; simpl; eauto. }
  assert (Forall (λ c, matching_messages (get_history c) ≤ 1) sample_batch)
    as Hone.
  { repeat constructor; vm_compute; lia. }
  repeat (split; [assumption|]).
  exact (classify_partition sample_batch Hnd Hscan Hone).
Defined.

(** ** C3: a message with a missing field *)

Lemma missing_field_not_scannable m : missing_field m ↔ ¬ scannable m.
Proof.
  unfold missing_field, scannable. split.
  - intros [Hty|[Hai Hc]] [[ty Hs] Himp].
    + congruence.
    + destruct (Himp Hai) as [c Hc']. congruence.
  - intros Hn. destruct (type m) as [ty|] eqn:Hty; [|auto].
    right. destruct (is_ai m) eqn:Hai.
    + split; [reflexivity|].
      destruct (content_of m) eqn:Hc; [|reflexivity].
      exfalso. apply Hn. split; eauto.
    + exfalso. apply Hn. split; [eauto|discriminate].
Qed.

Lemma Exists_missing_field convs :
  Exists (λ conv, Exists missing_field (get_history conv)) convs
  ↔ ¬ Forall scannable_conv convs.
Proof.
  split.
  - rewrite Exists_exists. intros (conv & Hconv & Hex) Hall.
    apply Exists_exists in Hex as (m & Hm & Hmiss).
    rewrite Forall_forall in Hall. specialize (Hall conv Hconv).
    unfold scannable_conv in Hall. rewrite Forall_forall in Hall.
    apply missing_field_not_scannable in Hmiss. apply Hmiss, Hall, Hm.
  - intros Hn. apply not_Forall_Exists in Hn; [|intros c; apply _].
    eapply Exists_impl; [exact Hn|]. intros conv Hc. simpl in Hc.
    apply not_Forall_Exists in Hc; [|apply _].
    eapply Exists_impl; [exact Hc|]. intros m Hm.
    apply missing_field_not_scannable, Hm.
Qed.

(** C3, as stated, fails: an AI message without [content] raises [KeyError]
    out of the loops, so nothing is classified, neither the rest of that
    conversation nor the other conversation of the batch; without the
    message both are leads. *)
Lemma malformed_message_counterexample :
  classify [conv_malformed; conv_trial] = Raise (KeyError "content")
  ∧ classify [conv_repaired; conv_trial] = Ok ([conv_repaired; conv_trial], []).
Proof. split; vm_compute; reflexivity. Qed.

(** C3 (amended): the pass has no handler. A message without [type], or an AI
    message without [data] or [content], raises [KeyError] and aborts the
    classification of the whole batch; when no message of the batch is of
    that kind (a message of another type may lack its content) the pass
    completes, and such a message of another type changes nothing; a
    conversation without a [history] has no message to scan. *)
Theorem malformed_message_aborts convs :
  (Exists (λ conv, Exists missing_field (get_history conv)) convs →
   ∃ key, classify convs = Raise (KeyError key))
  ∧ (¬ Exists (λ conv, Exists missing_field (get_history conv)) convs →
     classify convs = Ok (bucket Lead convs, bucket Escalation convs))
  ∧ (∀ conv m ty (st : Buckets),
       type m = Some ty → ty ≠ "ai" → scan_message conv m st = Ok st)
  ∧ (∀ conv (st : Buckets),
       history conv = None → scan_history conv (get_history conv) st = Ok st).
Proof.
  split; [|split; [|split]].
  - intros Hex. apply Exists_missing_field in Hex.
    apply (scan_conversations_not_scannable convs ([], []) Hex).
  - intros Hnex. apply classify_scannable.
    destruct (decide (Forall scannable_conv convs)) as [Hall|Hn];
      [exact Hall|].
    exfalso. apply Hnex, Exists_missing_field, Hn.
  - intros conv m ty st. apply scan_message_not_ai.
  - intros conv st Hnone. unfold get_history. rewrite Hnone. reflexivity.
Qed.

Lemma malformed_message_aborts_witness :
  Exists (λ conv, Exists missing_field (get_history conv))
    [conv_trial; conv_malformed]
  ∧ (∃ key, classify [conv_trial; conv_malformed] = Raise (KeyError key))
  ∧ ¬ Exists (λ conv, Exists missing_field (get_history conv))
      [conv_human_no_content]
  ∧ classify [conv_human_no_content] = Ok ([], [conv_human_no_content]).
Proof.
  assert (Exists (λ conv, Exists missing_field (get_history conv))
            [conv_trial; conv_malformed]) as Hex.
  { apply Exists_cons_tl, Exists_cons_hd, Exists_cons_hd.
    right. split; reflexivity. }
  assert (¬ Exists (λ conv, Exists missing_field (get_history conv))
            [conv_human_no_content]) as Hnex.
  { intros Hn. apply Exists_missing_field in Hn. apply Hn.
    repeat constructor; simpl; eauto; discriminate. }
  split; [exact Hex|]. split.
  - exact (proj1 (malformed_message_aborts _) Hex).
  - split; [exact Hnex|].
    exact (proj1 (proj2 (malformed_message_aborts _)) Hnex).
Defined.

(** ** C6: messages that are not from the assistant, and no match *)

Lemma no_marker_message_outcome m :
  no_marker_message m → scannable m ∧ message_outcome m = None.
Proof.
  unfold scannable, message_outcome, is_ai.
  intros [(ty & Hty & Hne)|(Hty & c & Hc & H1 & H2 & H3)]; rewrite Hty.
  - destruct (String.eqb_spec ty "ai"); [contradiction|].
    split; [split; [eauto|discriminate]|reflexivity].
  - simpl. rewrite Hc. simpl. unfold marker_outcome. rewrite H1, H2, H3.
    split; [split; eauto|reflexivity].
Qed.

Lemma no_marker_occurrences o h :
  Forall no_marker_message h → Forall scannable h ∧ occurrences o h = 0.
Proof.
  induction 1 as [|m h Hm Hh [IHs IHo]]; [split; [constructor|reflexivity]|].
  apply no_marker_message_outcome in Hm as [Hs Hnone].
  split; [constructor; assumption|].
  rewrite occurrences_cons, IHo, Hnone. case_decide; [discriminate|reflexivity].
Qed.

Lemma bucket_app o convs1 convs2 :
  bucket o (convs1 ++ convs2) = bucket o convs1 ++ bucket o convs2.
Proof. apply bind_app. Qed.

Lemma key_metrics_Ok convs l e :
  classify convs = Ok (l, e) →
  key_metrics convs = Ok (mkMetrics (length convs) (length l) (length e)).
Proof. intros Hok. unfold key_metrics. rewrite Hok. reflexivity. Qed.

(** C6: a message whose type is not ["ai"] is skipped whatever its content,
    and a conversation all of whose messages are of another type or are AI
    messages without any marker phrase is in neither list: the pass gives the
    lists it gives without that conversation, which adds one to the total
    count only. *)
Theorem no_match_in_neither pre conv post :
  Forall scannable_conv (pre ++ post) →
  Forall no_marker_message (get_history conv) →
  (∀ ty text (st : Buckets),
     ty ≠ "ai" →
     scan_message conv (mkMessage (Some ty) (Some (mkData (Some text)))) st
     = Ok st)
  ∧ ∃ l e,
      classify (pre ++ conv :: post) = Ok (l, e)
      ∧ classify (pre ++ post) = Ok (l, e)
      ∧ (conv ∉ l) ∧ (conv ∉ e)
      ∧ key_metrics (pre ++ conv :: post)
        = Ok (mkMetrics (S (length (pre ++ post))) (length l) (length e)).
Proof.
  intros Hscan Hnone. split.
  - intros ty text st Hne. apply (scan_message_not_ai conv _ st ty); auto.
  - pose proof (no_marker_occurrences Lead _ Hnone) as [Hconv HL].
    pose proof (no_marker_occurrences Escalation _ Hnone) as [_ HE].
    assert (Forall scannable_conv (pre ++ conv :: post)) as Hall.
    { apply Forall_app in Hscan as [Hpre Hpost].
      apply Forall_app. split; [assumption|]. constructor; assumption. }
    assert (∀ o, occurrences o (get_history conv) = 0 →
                 bucket o (pre ++ conv :: post) = bucket o (pre ++ post))
      as Hsame.
    { intros o Ho. rewrite !bucket_app, bucket_cons, Ho. reflexivity. }
    exists (bucket Lead (pre ++ post)), (bucket Escalation (pre ++ post)).
    assert (classify (pre ++ conv :: post)
            = Ok (bucket Lead (pre ++ post), bucket Escalation (pre ++ post)))
      as Hok.
    { rewrite (classify_scannable _ Hall), (Hsame _ HL), (Hsame _ HE).
      reflexivity. }
    split; [exact Hok|].
    split; [apply classify_scannable, Hscan|].
    split; [|split].
    + intros Hin. apply elem_of_bucket in Hin as [_ Hpos]. lia.
    + intros Hin. apply elem_of_bucket in Hin as [_ Hpos]. lia.
    + rewrite (key_metrics_Ok _ _ _ Hok). f_equal. f_equal.
      rewrite !length_app. simpl. lia.
Qed.

Lemma no_match_in_neither_witness :
  Forall scannable_conv ([conv_trial] ++ [conv_escalated_then_trial])
  ∧ Forall no_marker_message (get_history conv_small_talk)
  ∧ ∃ l e,
      classify ([conv_trial] ++ conv_small_talk :: [conv_escalated_then_trial])
      = Ok (l, e)
      ∧ (conv_small_talk ∉ l) ∧ (conv_small_talk ∉ e).
Proof.
  assert (Forall scannable_conv ([conv_trial] ++ [conv_escalated_then_trial]))
    as Hscan.
  { repeat constructor; simpl; eauto. }
  assert (Forall no_marker_message (get_history conv_small_talk)) as Hnone.
  { constructor; [|constructor; [|constructor]].
    - left. exists "human". split; [reflexivity|discriminate].
    - right. split; [reflexivity|]. eexists. split; [reflexivity|].
      vm_compute. auto. }
  split; [exact Hscan|]. split; [exact Hnone|].
  destruct (no_match_in_neither _ _ _ Hscan Hnone)
    as (_ & l & e & Hok & _ & Hl & He & _).
  exists l, e. auto.
Defined.

(** ** C10: the metrics count matching messages *)

Lemma times_replicate conv c n :
  times conv (replicate n c) = if decide (c = conv) then n else 0.
Proof.
  unfold times. induction n as [|n IH]; simpl.
  - case_decide; reflexivity.
  - rewrite filter_cons. repeat case_decide; try congruence; simpl; lia.
Qed.

Lemma times_app conv l1 l2 :
  times conv (l1 ++ l2) = times conv l1 + times conv l2.
Proof. unfold times. rewrite filter_app, length_app. reflexivity. Qed.

Lemma times_cons conv c l :
  times conv (c :: l) = (if decide (c = conv) then 1 else 0) + times conv l.
Proof. unfold times. rewrite filter_cons. case_decide; reflexivity. Qed.

Lemma times_bucket o conv convs :
  times conv (bucket o convs)
  = times conv convs * occurrences o (get_history conv).
Proof.
  induction convs as [|c convs IH]; [reflexivity|].
  rewrite bucket_cons, times_app, times_replicate, times_cons, IH.
  case_decide; subst; lia.
Qed.

Lemma times_not_elem_of conv convs : conv ∉ convs → times conv convs = 0.
Proof.
  induction convs as [|c convs IH]; intros Hnin; [reflexivity|].
  apply not_elem_of_cons in Hnin as [Hne Hnin].
  rewrite times_cons, (IH Hnin). case_decide; [congruence|reflexivity].
Qed.

Lemma times_NoDup conv convs :
  NoDup convs → conv ∈ convs → times conv convs = 1.
Proof.
  induction 1 as [|c convs Hnin Hnd IH]; intros Hin.
  - apply elem_of_nil in Hin. contradiction.
  - rewrite times_cons. case_decide as Hc.
    + subst. rewrite (times_not_elem_of _ _ Hnin). reflexivity.
    + apply elem_of_cons in Hin as [->|Hin]; [contradiction|].
      rewrite (IH Hin). reflexivity.
Qed.

Lemma length_bucket o convs :
  length (bucket o convs)
  = sum_list (map (λ c, occurrences o (get_history c)) convs).
Proof.
  induction convs as [|c convs IH]; [reflexivity|].
  rewrite bucket_cons, length_app, length_replicate, IH. reflexivity.
Qed.

Lemma well_formed_scannable convs :
  Forall well_formed_conv convs → Forall scannable_conv convs.
Proof.
  intros Hall. eapply Forall_impl; [exact Hall|].
  intros conv Hconv. unfold well_formed_conv, scannable_conv in *.
  eapply Forall_impl; [exact Hconv|]. intros m [Hty Hc]. split; auto.
Qed.

(** C10: a conversation whose messages all have their type and content, in a
    batch of distinct conversations that the pass processes without error,
    occurs in the leads and in the escalations, taken together, once per AI
    message of its history that contains a marker phrase; so the two metrics
    add up to the number of matching messages of the batch, not to a number
    of conversations. *)
Theorem metrics_count_matching_messages convs conv :
  well_formed_conv conv →
  Forall scannable_conv convs →
  NoDup convs →
  conv ∈ convs →
  ∃ l e,
    classify convs = Ok (l, e)
    ∧ times conv l + times conv e = matching_messages (get_history conv)
    ∧ key_metrics convs = Ok (mkMetrics (length convs) (length l) (length e))
    ∧ length l + length e
      = sum_list (map (λ c, matching_messages (get_history c)) convs).
Proof.
  intros _ Hscan Hnd Hin.
  pose proof (classify_scannable _ Hscan) as Hok.
  exists (bucket Lead convs), (bucket Escalation convs).
  split; [exact Hok|]. split; [|split].
  - rewrite !times_bucket, (times_NoDup _ _ Hnd Hin).
    pose proof (occurrences_sum (get_history conv)). lia.
  - apply key_metrics_Ok, Hok.
  - rewrite !length_bucket. clear. induction convs as [|c convs IH]; simpl.
    + reflexivity.
    + pose proof (occurrences_sum (get_history c)). lia.
Qed.

Lemma metrics_count_matching_messages_witness :
  well_formed_conv conv_two_trials
  ∧ Forall scannable_conv [conv_trial; conv_two_trials]
  ∧ NoDup [conv_trial; conv_two_trials]
  ∧ conv_two_trials ∈ [conv_trial; conv_two_trials]
  ∧ ∃ l e,
      classify [conv_trial; conv_two_trials] = Ok (l, e)
      ∧ times conv_two_trials l + times conv_two_trials e = 2
      ∧ length l + length e = 3.
Proof.
  assert (Forall well_formed_conv [conv_trial; conv_two_trials]) as Hall.
  { repeat constructor; simpl; eauto. }
  assert (well_formed_conv conv_two_trials) as Hwf.
  { apply Forall_cons in Hall as [_ Hall].
    apply Forall_cons in Hall as [Hwf _]. exact Hwf. }
  apply well_formed_scannable in Hall as Hscan.
  assert (NoDup [conv_trial; conv_two_trials]) as Hnd.
  { apply NoDup_cons. split; [|apply NoDup_singleton].
    intros Hin. apply list_elem_of_singleton in Hin. discriminate. }
  assert (conv_two_trials ∈ [conv_trial; conv_two_trials]) as Hin.
  { apply list_elem_of_further, list_elem_of_here. }
  repeat (split; [assumption|]).
  destruct (metrics_count_matching_messages _ _ Hwf Hscan Hnd Hin)
    as (l & e & Hok & Htimes & _ & Hlen).
  exists l, e. auto.
Defined.

(** ** Substrings *)

Lemma append_cons x (a b : string) : String x a +:+ b = String x (a +:+ b).
Proof. reflexivity. Qed.

Lemma append_assoc (a b c : string) : (a +:+ b) +:+ c = a +:+ b +:+ c.
Proof.
  induction a as [|x a IH]; [reflexivity|].
  rewrite !append_cons, IH. reflexivity.
Qed.

Lemma prefix_append a : ∀ b,
  String.prefix a b = true ↔ ∃ s, b = a +:+ s.
Proof.
  induction a as [|x a IH]; intros b.
  - destruct b; simpl; split; eauto.
  - destruct b as [|y b]; simpl.
    + split; [discriminate|]. intros [s Hs]. discriminate.
    + destruct (ascii_dec x y) as [->|Hne].
      * rewrite IH. split; intros [s Hs]; exists s.
        -- rewrite Hs. reflexivity.
        -- rewrite append_cons in Hs. injection Hs as Hs. exact Hs.
      * split; [discriminate|]. intros [s Hs].
        rewrite append_cons in Hs. injection Hs as Hxy _. congruence.
Qed.

Lemma contains_append needle : ∀ haystack,
  contains needle haystack = true
  ↔ ∃ p s, haystack = p +:+ needle +:+ s.
Proof.
  induction haystack as [|x h IH].
  - cbn [contains]. rewrite orb_false_r, prefix_append. split.
    + intros [s Hs]. exists EmptyString, s. exact Hs.
    + intros (p & s & Hps). destruct p; [eauto|discriminate].
  - cbn [contains]. rewrite orb_true_iff, prefix_append, IH. split.
    + intros [[s Hs]|(p & s & Hps)].
      * exists EmptyString, s. exact Hs.
      * exists (String x p), s. rewrite append_cons, Hps. reflexivity.
    + intros (p & s & Hps). destruct p as [|y p].
      * left. exists s. exact Hps.
      * right. rewrite append_cons in Hps. injection Hps as _ Hps. eauto.
Qed.

(** A substring of a substring is a substring. *)
Lemma contains_trans a b c :
  contains a b = true → contains b c = true → contains a c = true.
Proof.
  rewrite !contains_append. intros (p1 & s1 & ->) (p2 & s2 & ->).
  exists (p2 +:+ p1), (s1 +:+ s2). rewrite !append_assoc. reflexivity.
Qed.

Lemma lead_filter_in_markers :
  contains LEAD_FILTER LEAD_TRIAL = true
  ∧ contains LEAD_FILTER LEAD_PARTY = true
  ∧ contains ESCALATION_FILTER ESCALATION = true.
Proof. vm_compute. auto. Qed.

(** ** The detail column on scannable histories *)

Lemma matching_contents_scannable needle h :
  Forall scannable h →
  matching_contents needle h = Ok (omap (kept needle) h).
Proof.
  induction 1 as [|m h [[ty Hty] Hc] Hh IH]; [reflexivity|].
  cbn [matching_contents omap list_omap]. unfold kept at 1.
  unfold is_ai, message_content, content_of in *. rewrite Hty in *.
  unfold_result. simpl.
  destruct (String.eqb ty "ai"); simpl.
  - destruct (Hc eq_refl) as [c Hcont].
    destruct (data m) as [d|]; simpl in *; [|discriminate].
    rewrite Hcont. simpl. rewrite IH.
    destruct (contains needle c); reflexivity.
  - exact IH.
Qed.

Lemma head_kept needle h :
  head (omap (kept needle) h) = first_ai_containing needle h.
Proof.
  induction h as [|m h IH]; [reflexivity|].
  cbn [omap list_omap first_ai_containing]. unfold kept at 1.
  destruct (is_ai m), (content_of m) as [c|]; simpl; try exact IH.
  destruct (contains needle c); simpl; [reflexivity|exact IH].
Qed.

Lemma first_item_head {A : Type} (xs : list A) x :
  first_item xs = Ok x ↔ head xs = Some x.
Proof. destruct xs; simpl; split; congruence. Qed.

Lemma occurrences_pos o h :
  0 < occurrences o h → ∃ m, m ∈ h ∧ message_outcome m = Some o.
Proof.
  unfold occurrences. intros Hpos.
  destruct (filter (λ m, message_outcome m = Some o) h) as [|m ms] eqn:Hf;
    [simpl in Hpos; lia|].
  assert (m ∈ filter (λ m, message_outcome m = Some o) h) as Hm
    by (rewrite Hf; apply list_elem_of_here).
  apply list_elem_of_filter in Hm as [Ho Hin]. eauto.
Qed.

Lemma outcome_kept o needle m :
  (∀ c, marker_outcome c = Some o → contains needle c = true) →
  message_outcome m = Some o → ∃ c, kept needle m = Some c.
Proof.
  intros Hneedle. unfold message_outcome, kept.
  destruct (is_ai m); [|discriminate].
  destruct (content_of m) as [c|]; simpl; [|discriminate].
  intros Ho. rewrite (Hneedle c Ho). eauto.
Qed.

Lemma lead_marker_filter c :
  marker_outcome c = Some Lead → contains LEAD_FILTER c = true.
Proof.
  unfold marker_outcome.
  destruct lead_filter_in_markers as (H1 & H2 & _).
  destruct (contains LEAD_TRIAL c) eqn:Ht; [intros _; eauto using contains_trans|].
  destruct (contains LEAD_PARTY c) eqn:Hp; [intros _; eauto using contains_trans|].
  destruct (contains ESCALATION c); discriminate.
Qed.

Lemma escalation_marker_filter c :
  marker_outcome c = Some Escalation → contains ESCALATION_FILTER c = true.
Proof.
  unfold marker_outcome.
  destruct lead_filter_in_markers as (_ & _ & H3).
  destruct (contains LEAD_TRIAL c); [discriminate|].
  destruct (contains LEAD_PARTY c); [discriminate|].
  destruct (contains ESCALATION c) eqn:He; [|discriminate].
  intros _. eauto using contains_trans.
Qed.

(** The detail of a conversation of the bucket of [o], for a filter that
    every marker phrase of [o] contains. *)
Lemma details_of_bucket o needle conv convs :
  (∀ c, marker_outcome c = Some o → contains needle c = true) →
  Forall scannable_conv convs →
  conv ∈ bucket o convs →
  ∃ h s rest,
    history conv = Some h
    ∧ matching_contents needle h = Ok (s :: rest)
    ∧ details needle conv = Ok s
    ∧ first_ai_containing needle (get_history conv) = Some s.
Proof.
  intros Hneedle Hall Hin.
  apply elem_of_bucket in Hin as [Hconv Hpos].
  rewrite Forall_forall in Hall. specialize (Hall conv Hconv).
  apply occurrences_pos in Hpos as (m & Hm & Ho).
  destruct (outcome_kept o needle m Hneedle Ho) as [c Hc].
  unfold scannable_conv, get_history, details in *.
  destruct (history conv) as [h|]; simpl in *;
    [|apply elem_of_nil in Hm; contradiction].
  pose proof (matching_contents_scannable needle h Hall) as Hmc.
  pose proof (head_kept needle h) as Hhead.
  assert (c ∈ omap (kept needle) h) as Hcin.
  { apply list_elem_of_omap. eauto. }
  destruct (omap (kept needle) h) as [|s rest];
    [apply elem_of_nil in Hcin; contradiction|].
  exists h, s, rest. unfold_result. rewrite Hmc. simpl in *. auto.
Qed.

Lemma details_column_Ok needle rows :
  (∀ conv, conv ∈ rows → ∃ s, details needle conv = Ok s) →
  ∃ ds, details_column needle rows = Ok ds ∧ length ds = length rows.
Proof.
  induction rows as [|conv rows IH]; intros Hall.
  - exists []. split; reflexivity.
  - destruct (Hall conv (list_elem_of_here _ _)) as [s Hs].
    destruct IH as (ds & Hds & Hlen).
    { intros c Hc. apply Hall, list_elem_of_further, Hc. }
    exists (s :: ds). cbn [details_column]. rewrite Hs. unfold_result.
    rewrite Hds. simpl. auto.
Qed.

Lemma first_ai_containing_triggering needle o h :
  (∀ c, marker_outcome c = Some o → contains needle c = true) →
  no_stray needle o h →
  first_ai_containing needle h = triggering_content o h.
Proof.
  intros Hneedle. induction 1 as [|m h Hm Hh IH]; [reflexivity|].
  cbn [first_ai_containing triggering_content]. rewrite IH.
  unfold kept, message_outcome in *.
  destruct (content_of m) as [c|]; simpl in *.
  - destruct (is_ai m); simpl in *;
      [|repeat case_decide; try discriminate; reflexivity].
    destruct (contains needle c) eqn:Hc.
    + rewrite (Hm c eq_refl). repeat case_decide; [reflexivity|contradiction].
    + destruct (decide (marker_outcome c = Some o)) as [Ho|Ho]; [|reflexivity].
      rewrite (Hneedle c Ho) in Hc. discriminate.
  - destruct (is_ai m); repeat case_decide; try discriminate; reflexivity.
Qed.

(** ** C9: the filtered list of a classified conversation *)

(** C9: when the pass has put a conversation in the leads (in the
    escalations), the list of its AI messages whose content contains ["I've"]
    (["I've passed your request"]) is not empty, no subscript of the
    comprehension fails and the first element is there; the detail columns of
    both tables are built without error. *)
Theorem detail_filter_nonempty convs l e :
  classify convs = Ok (l, e) →
  (∀ conv, conv ∈ l →
     ∃ h s rest, history conv = Some h
                 ∧ matching_contents LEAD_FILTER h = Ok (s :: rest)
                 ∧ lead_details conv = Ok s)
  ∧ (∀ conv, conv ∈ e →
       ∃ h s rest, history conv = Some h
                   ∧ matching_contents ESCALATION_FILTER h = Ok (s :: rest)
                   ∧ escalation_details conv = Ok s)
  ∧ ∃ dl de, details_column LEAD_FILTER l = Ok dl
             ∧ details_column ESCALATION_FILTER e = Ok de
             ∧ length dl = length l ∧ length de = length e.
Proof.
  intros Hok. apply classify_Ok_inv in Hok as (Hall & -> & ->).
  assert (∀ conv, conv ∈ bucket Lead convs →
            ∃ h s rest, history conv = Some h
                        ∧ matching_contents LEAD_FILTER h = Ok (s :: rest)
                        ∧ lead_details conv = Ok s) as HL.
  { intros conv Hin.
    destruct (details_of_bucket Lead LEAD_FILTER conv convs
                lead_marker_filter Hall Hin) as (h & s & rest & ? & ? & ? & _).
    exists h, s, rest. auto. }
  assert (∀ conv, conv ∈ bucket Escalation convs →
            ∃ h s rest, history conv = Some h
                        ∧ matching_contents ESCALATION_FILTER h = Ok (s :: rest)
                        ∧ escalation_details conv = Ok s) as HE.
  { intros conv Hin.
    destruct (details_of_bucket Escalation ESCALATION_FILTER conv convs
                escalation_marker_filter Hall Hin)
      as (h & s & rest & ? & ? & ? & _).
    exists h, s, rest. auto. }
  split; [exact HL|]. split; [exact HE|].
  destruct (details_column_Ok LEAD_FILTER (bucket Lead convs)) as (dl & ? & ?).
  { intros conv Hin. destruct (HL conv Hin) as (_ & s & _ & _ & _ & Hs). eauto. }
  destruct (details_column_Ok ESCALATION_FILTER (bucket Escalation convs))
    as (de & ? & ?).
  { intros conv Hin. destruct (HE conv Hin) as (_ & s & _ & _ & _ & Hs). eauto. }
  exists dl, de. auto.
Qed.

Lemma detail_filter_nonempty_witness :
  classify [conv_chatty_lead; conv_human_no_content]
  = Ok ([conv_chatty_lead], [conv_human_no_content])
  ∧ (∃ h s rest, history conv_chatty_lead = Some h
                 ∧ matching_contents LEAD_FILTER h = Ok (s :: rest)
                 ∧ lead_details conv_chatty_lead = Ok s)
  ∧ (∃ h s rest, history conv_human_no_content = Some h
                 ∧ matching_contents ESCALATION_FILTER h = Ok (s :: rest)
                 ∧ escalation_details conv_human_no_content = Ok s).
Proof.
  assert (classify [conv_chatty_lead; conv_human_no_content]
          = Ok ([conv_chatty_lead], [conv_human_no_content])) as Hok.
  { vm_compute. reflexivity. }
  split; [exact Hok|].
  destruct (detail_filter_nonempty _ _ _ Hok) as (HL & HE & _).
  split.
  - apply HL, list_elem_of_here.
  - apply HE, list_elem_of_here.
Defined.

(** ** C8: the detail string *)

(** C8, as stated, fails: the detail of a lead is the first AI message with
    ["I've"] in it, which need not be the message that made the conversation
    a lead; the same holds for an escalation and the shorter phrase
    ["I've passed your request"]. *)
Lemma detail_counterexample :
  classify [conv_chatty_lead; conv_stray_escalation]
  = Ok ([conv_chatty_lead], [conv_stray_escalation])
  ∧ (∃ shown caused,
       lead_details conv_chatty_lead = Ok shown
       ∧ triggering_content Lead (get_history conv_chatty_lead) = Some caused
       ∧ shown = "I've got a few questions first."
       ∧ caused = "I've scheduled your 7-day free trial"
       ∧ shown ≠ caused)
  ∧ (∃ shown caused,
       escalation_details conv_stray_escalation = Ok shown
       ∧ triggering_content Escalation (get_history conv_stray_escalation)
         = Some caused
       ∧ shown = "I've passed your request for a quote to sales already."
       ∧ caused = "I've passed your request on to our team"
       ∧ shown ≠ caused).
Proof.
  split; [vm_compute; reflexivity|]. split.
  - exists "I've got a few questions first.",
      "I've scheduled your 7-day free trial".
    repeat split; try (vm_compute; reflexivity). discriminate.
  - exists "I've passed your request for a quote to sales already.",
      "I've passed your request on to our team".
    repeat split; try (vm_compute; reflexivity). discriminate.
Qed.

(** C8 (amended): for a conversation the pass has put in the leads (in the
    escalations) the detail string is the content of the first AI message of
    its history whose content contains ["I've"] (["I've passed your
    request"]); it is the content of the message that caused the
    classification when every AI message containing that substring is itself
    a lead (an escalation) message. *)
Theorem detail_is_first_ai_containing convs l e :
  classify convs = Ok (l, e) →
  (∀ conv, conv ∈ l →
     ∃ s, lead_details conv = Ok s
          ∧ first_ai_containing LEAD_FILTER (get_history conv) = Some s
          ∧ (no_stray LEAD_FILTER Lead (get_history conv) →
             triggering_content Lead (get_history conv) = Some s))
  ∧ (∀ conv, conv ∈ e →
       ∃ s, escalation_details conv = Ok s
            ∧ first_ai_containing ESCALATION_FILTER (get_history conv) = Some s
            ∧ (no_stray ESCALATION_FILTER Escalation (get_history conv) →
               triggering_content Escalation (get_history conv) = Some s)).
Proof.
  intros Hok. apply classify_Ok_inv in Hok as (Hall & -> & ->). split.
  - intros conv Hin.
    destruct (details_of_bucket Lead LEAD_FILTER conv convs
                lead_marker_filter Hall Hin)
      as (h & s & rest & _ & _ & Hd & Hfirst).
    exists s. split; [exact Hd|]. split; [exact Hfirst|].
    intros Hns. rewrite <- Hfirst. symmetry.
    apply first_ai_containing_triggering; [apply lead_marker_filter|exact Hns].
  - intros conv Hin.
    destruct (details_of_bucket Escalation ESCALATION_FILTER conv convs
                escalation_marker_filter Hall Hin)
      as (h & s & rest & _ & _ & Hd & Hfirst).
    exists s. split; [exact Hd|]. split; [exact Hfirst|].
    intros Hns. rewrite <- Hfirst. symmetry.
    apply first_ai_containing_triggering;
      [apply escalation_marker_filter|exact Hns].
Qed.

Lemma detail_is_first_ai_containing_witness :
  classify [conv_trial; conv_stray_escalation]
  = Ok ([conv_trial], [conv_stray_escalation])
  ∧ (∃ s, lead_details conv_trial = Ok s
          ∧ first_ai_containing LEAD_FILTER (get_history conv_trial) = Some s
          ∧ triggering_content Lead (get_history conv_trial) = Some s)
  ∧ (∃ s, escalation_details conv_stray_escalation = Ok s
          ∧ first_ai_containing ESCALATION_FILTER
              (get_history conv_stray_escalation) = Some s).
Proof.
  assert (classify [conv_trial; conv_stray_escalation]
          = Ok ([conv_trial], [conv_stray_escalation])) as Hok.
  { vm_compute. reflexivity. }
  split; [exact Hok|].
  destruct (detail_is_first_ai_containing _ _ _ Hok) as (HL & HE).
  split.
  - destruct (HL conv_trial (list_elem_of_here _ _)) as (s & Hd & Hf & Ht).
    exists s. split; [exact Hd|]. split; [exact Hf|]. apply Ht.
    repeat constructor; intros c; vm_compute; congruence.
  - destruct (HE conv_stray_escalation (list_elem_of_here _ _))
      as (s & Hd & Hf & _).
    exists s. auto.
Defined.

(** ** C4: the activity histogram *)

Section HistogramProperties.
Context {Date : Type} `{Countable Date}.




Lemma groupby_size_lookup (dates : list Date) d :
  groupby_size dates !! d
  = let n := length (filter (λ x, x = d) dates) in
    if decide (n = 0) then None else Some n.
Proof.
  induction dates as [|x dates IH]; simpl.
  - apply lookup_empty.
  - rewrite lookup_insert, filter_cons.
    destruct (decide (x = d)) as [->|Hne].
    + rewrite IH. cbv zeta. cbn [length].
      destruct (decide (length (filter (λ x, x = d) dates) = 0)) as [Hn|Hn];
        [rewrite Hn|]; simpl; repeat case_decide; try lia; reflexivity.
    + exact IH.
Qed.
End HistogramProperties.

Lemma is_null_true ts : is_null ts = true ↔ ts = EmptyString.
Proof. apply String.eqb_eq. Qed.


Lemma one_layout_shape l column :
  one_layout l column →
  forallb (λ ts, is_null ts || bool_decide (is_Some (store_timestamp ts)))
    column = true
  ∧ forallb (λ ts, is_null ts || bool_decide (timestamp_layout ts = Some l))
      column = true
  ∧ (first_layout column = None ∨ first_layout column = Some l).
Proof.
  induction 1 as [|ts column Hts Hrest (IH1 & IH2 & IH3)]; [auto|].
  cbn [forallb first_layout]. rewrite IH1, IH2.
  destruct Hts as [->|[d Hd]].
  - auto.
  - unfold timestamp_layout. rewrite Hd. simpl.
    rewrite !bool_decide_eq_true_2 by eauto. rewrite !orb_true_r.
    destruct (is_null ts); auto.
Qed.

Lemma date_column_one_layout other l column :
  one_layout l column →
  date_column other column = Ok (calendar_date <$> column).
Proof.
  intros Hl. destruct (one_layout_shape _ _ Hl) as (H1 & H2 & [H3|H3]).
  - unfold date_column. rewrite H1, H3. reflexivity.
  - unfold date_column. rewrite H1, H3, H2. reflexivity.
Qed.

Lemma dates_on (d : date) convs :
  length (filter (λ x, x = d)
            (omap id (calendar_date <$> (updated_at <$> convs))))
  = updated_on d convs.
Proof.
  unfold updated_on. induction convs as [|c convs IH]; [reflexivity|].
  rewrite !fmap_cons. cbn [omap list_omap]. rewrite (filter_cons _ c).
  destruct (calendar_date (updated_at c)) as [x|]; simpl.
  - rewrite filter_cons.
    repeat case_decide; simplify_eq/=; rewrite ?IH; try reflexivity;
      congruence.
  - exact IH.
Qed.


Lemma forallb_Forall {A : Type} (f : A → bool) xs :
  forallb f xs = true ↔ Forall (λ x, f x = true) xs.
Proof.
  induction xs as [|x xs IH]; simpl.
  - split; [constructor|reflexivity].
  - rewrite andb_true_iff, Forall_cons, IH. reflexivity.
Qed.

(** On a column of timestamps of the store, lines 97-98 give the dates when
    the timestamps share one layout and raise [ValueError] when they do
    not. *)
Lemma date_column_store other column :
  store_timestamps column →
  ((∃ l, one_layout l column)
   ∧ date_column other column = Ok (calendar_date <$> column))
  ∨ ((¬ ∃ l, one_layout l column)
     ∧ date_column other column = Raise ValueError).
Proof.
  intros Hstore.
  assert (forallb (λ ts, is_null ts
                         || bool_decide (is_Some (store_timestamp ts)))
            column = true) as Hshape.
  { apply forallb_Forall. eapply Forall_impl; [exact Hstore|].
    intros ts Hts. simpl. rewrite bool_decide_eq_true_2 by exact Hts.
    apply orb_true_r. }
  destruct column as [|ts column].
  { left. split; [exists Seconds; constructor|reflexivity]. }
  pose proof Hstore as Hstore'.
  apply Forall_cons in Hstore' as [[[d l0] Hts] _].
  assert (first_layout (ts :: column) = Some l0) as Hfirst.
  { cbn [first_layout]. destruct (is_null ts) eqn:Hnull.
    - apply is_null_true in Hnull. subst ts. discriminate.
    - unfold timestamp_layout. rewrite Hts. reflexivity. }
  unfold date_column. rewrite Hshape, Hfirst.
  destruct (forallb (λ ts0, is_null ts0
                            || bool_decide (timestamp_layout ts0 = Some l0))
              (ts :: column)) eqn:Hall.
  - left. split; [|reflexivity]. exists l0.
    apply forallb_Forall in Hall. unfold one_layout.
    apply Forall_forall. intros x Hx.
    unfold store_timestamps in Hstore. rewrite Forall_forall in Hstore, Hall.
    destruct (Hstore x Hx) as [[dx lx] Hdx]. specialize (Hall x Hx).
    simpl in Hall. apply orb_true_iff in Hall as [Hnull|Hlx].
    + left. apply is_null_true, Hnull.
    + right. apply bool_decide_eq_true_1 in Hlx.
      unfold timestamp_layout in Hlx. rewrite Hdx in Hlx.
      injection Hlx as ->. eauto.
  - right. split; [|reflexivity]. intros [l Hl].
    destruct (one_layout_shape _ _ Hl) as (_ & H2 & [H3|H3]).
    + rewrite Hfirst in H3. discriminate.
    + rewrite Hfirst in H3. injection H3 as ->. rewrite H2 in Hall.
      discriminate.
Qed.




(** ** C5: recent conversations *)

Lemma ltb_false_le x y : String.ltb x y = false → String.le y x.
Proof.
  unfold String.le, String.leb, String.ltb.
  rewrite (String.compare_antisym y x).
  destruct (String.compare x y); simpl; [auto|discriminate|auto].
Qed.

Lemma ltb_true_le x y : String.ltb x y = true → String.le x y.
Proof.
  unfold String.le, String.leb, String.ltb.
  destruct (String.compare x y); simpl; [auto|auto|discriminate].
Qed.

Lemma le_ne_ltb x y : String.le x y → x ≠ y → String.ltb x y = true.
Proof.
  unfold String.le, String.leb, String.ltb. intros Hle Hne.
  destruct (String.compare x y) eqn:Hc; simpl in *.
  - apply String.compare_eq_iff in Hc. contradiction.
  - reflexivity.
  - contradiction.
Qed.

#[global] Instance not_older_trans : Transitive not_older.
Proof.
  intros a b c Hab Hbc. unfold not_older in *.
  transitivity (updated_at b); assumption.
Qed.

Lemma insert_desc_perm conv l : insert_desc conv l ≡ₚ conv :: l.
Proof.
  induction l as [|c l IH]; simpl; [reflexivity|].
  destruct (String.ltb (updated_at conv) (updated_at c)); [|reflexivity].
  rewrite IH. apply Permutation_swap.
Qed.

Lemma sorted_convs_perm convs : sorted_convs convs ≡ₚ convs.
Proof.
  induction convs as [|c convs IH]; simpl; [reflexivity|].
  rewrite insert_desc_perm, IH. reflexivity.
Qed.

Lemma insert_desc_sorted conv l :
  StronglySorted not_older l → StronglySorted not_older (insert_desc conv l).
Proof.
  induction 1 as [|c l Hl IH Hc]; simpl.
  - repeat constructor.
  - destruct (String.ltb (updated_at conv) (updated_at c)) eqn:Hlt.
    + constructor; [exact IH|].
      rewrite insert_desc_perm. constructor; [|exact Hc].
      apply ltb_true_le, Hlt.
    + apply ltb_false_le in Hlt.
      constructor; [constructor; assumption|].
      constructor; [exact Hlt|].
      eapply Forall_impl; [exact Hc|]. intros x Hx.
      transitivity c; assumption.
Qed.

Lemma sorted_convs_sorted convs : StronglySorted not_older (sorted_convs convs).
Proof.
  induction convs as [|c convs IH]; simpl; [constructor|].
  apply insert_desc_sorted, IH.
Qed.

Lemma NoDup_keys_inj (l : list Conversation) a b :
  NoDup (updated_at <$> l) → a ∈ l → b ∈ l →
  updated_at a = updated_at b → a = b.
Proof.
  induction l as [|c l IH]; intros Hnd Ha Hb Heq.
  - apply elem_of_nil in Ha. contradiction.
  - rewrite fmap_cons in Hnd. apply NoDup_cons in Hnd as [Hnin Hnd].
    apply elem_of_cons in Ha as [->|Ha], Hb as [->|Hb].
    + reflexivity.
    + exfalso. apply Hnin. rewrite Heq. apply list_elem_of_fmap_2, Hb.
    + exfalso. apply Hnin. rewrite <- Heq. apply list_elem_of_fmap_2, Ha.
    + apply IH; assumption.
Qed.

(** With distinct keys, "no earlier" between two entries of a list is
    "strictly later". *)
Lemma not_older_newer l a b :
  NoDup (updated_at <$> l) → a ∈ l → b ∈ l → a ≠ b →
  not_older a b → newer a b.
Proof.
  intros Hnd Ha Hb Hne Hle. apply le_ne_ltb; [exact Hle|].
  intros Heq. apply Hne. symmetry.
  eapply NoDup_keys_inj; eassumption.
Qed.

Lemma sorted_strictly l :
  NoDup (updated_at <$> l) →
  StronglySorted not_older l → StronglySorted newer l.
Proof.
  intros Hnd. induction 1 as [|a l Hl IH Ha]; [constructor|].
  rewrite fmap_cons in Hnd. pose proof Hnd as Hnd'.
  apply NoDup_cons in Hnd' as [Hnin Hndl].
  constructor; [apply IH, Hndl|].
  rewrite Forall_forall in Ha |- *. intros x Hx.
  apply (not_older_newer (a :: l));
    [exact Hnd|apply list_elem_of_here|apply list_elem_of_further, Hx| |auto].
  intros ->. apply Hnin, list_elem_of_fmap_2, Hx.
Qed.

Lemma recent_conversations_take convs :
  recent_conversations convs = take 10 (sorted_convs convs).
Proof. destruct convs; reflexivity. Qed.

(** C5: for conversations with distinct [updated_at] values the tab shows
    [min 10 (length convs)] conversations of the list, none twice, each
    strictly more recent than the next ones shown and than every
    conversation of the list that is not shown. *)
Theorem recent_conversations_top10 convs :
  NoDup (updated_at <$> convs) →
  length (recent_conversations convs) = min 10 (length convs)
  ∧ NoDup (recent_conversations convs)
  ∧ (∀ c, c ∈ recent_conversations convs → c ∈ convs)
  ∧ StronglySorted newer (recent_conversations convs)
  ∧ (∀ c c', c ∈ convs → c ∉ recent_conversations convs →
             c' ∈ recent_conversations convs → newer c' c).
Proof.
  intros Hnd. rewrite recent_conversations_take.
  pose proof (sorted_convs_perm convs) as Hperm.
  pose proof (sorted_convs_sorted convs) as Hsorted.
  assert (NoDup (updated_at <$> sorted_convs convs)) as Hkeys
    by (rewrite Hperm; exact Hnd).
  pose proof (take_drop 10 (sorted_convs convs)) as Hsplit.
  set (shown := take 10 (sorted_convs convs)) in *.
  set (hidden := drop 10 (sorted_convs convs)) in *.
  assert (length shown = min 10 (length convs)) as Hlen.
  { unfold shown. rewrite length_take, Hperm. reflexivity. }
  rewrite <- Hsplit in Hsorted, Hkeys, Hperm.
  pose proof Hkeys as Hkeys'.
  rewrite fmap_app in Hkeys'. apply NoDup_app in Hkeys' as (Hks & _ & _).
  split; [exact Hlen|].
  split; [apply (NoDup_fmap_1 updated_at), Hks|].
  split; [|split].
  - intros c Hc. rewrite <- Hperm. apply elem_of_app. left. exact Hc.
  - apply sorted_strictly; [exact Hks|].
    apply (StronglySorted_app_1_l _ _ _ Hsorted).
  - intros c c' Hc Hnot Hc'.
    rewrite <- Hperm in Hc. apply elem_of_app in Hc as [Hc|Hc];
      [contradiction|].
    apply (not_older_newer (shown ++ hidden)); [exact Hkeys| | | |].
    + apply elem_of_app. left. exact Hc'.
    + apply elem_of_app. right. exact Hc.
    + intros ->. contradiction.
    + apply (StronglySorted_app_1_elem_of _ _ _ _ _ Hsorted Hc' Hc).
Qed.

Example recent_fifteen :
  recent_conversations fifteen
  = stamped <$> ["15"; "14"; "13"; "12"; "11"; "10"; "09"; "08"; "07"; "06"].
Proof. vm_compute. reflexivity. Qed.

Lemma recent_conversations_top10_witness :
  NoDup (updated_at <$> fifteen)
  ∧ length (recent_conversations fifteen) = 10
  ∧ StronglySorted newer (recent_conversations fifteen)
  ∧ (∀ c c', c ∈ fifteen → c ∉ recent_conversations fifteen →
             c' ∈ recent_conversations fifteen → newer c' c).
Proof.
  assert (NoDup (updated_at <$> fifteen)) as Hnd.
  { apply (bool_decide_unpack (NoDup (updated_at <$> fifteen))).
    vm_compute. exact I. }
  split; [exact Hnd|].
  destruct (recent_conversations_top10 fifteen Hnd)
    as (Hlen & _ & _ & Hsorted & Hrest).
  split; [exact Hlen|]. split; [exact Hsorted|exact Hrest].
Defined.

(** ** C7: the start-up guard *)

(** C7, as stated, fails in its second half: the guard tests truthiness, so
    with both settings present and one of them the empty string the error
    branch is entered and no client is built. *)
Lemma startup_guard_counterexample :
  env_empty_url !! URL = Some EmptyString
  ∧ env_empty_url !! SERVICE_KEY = Some "secret"
  ∧ init_supabase_client env_empty_url
    = ([ShowError MISSING_CONFIG; Stop], None)
  ∧ script env_empty_url = [ShowError MISSING_CONFIG; Stop].
Proof. vm_compute. auto. Qed.

Lemma truthy_Some_nonempty v : v ≠ EmptyString → truthy (Some v) = true.
Proof. destruct v; [contradiction|reflexivity]. Qed.

(** C7 (amended): when either setting is absent from the environment, or is
    the empty string, the script shows the diagnostic and stops: it builds no
    client and issues no query. When both are present and not empty the
    client is built from them, no error is shown, and the three fetches
    follow. *)
Theorem startup_guard (env : gmap string string) :
  (env !! URL = None ∨ env !! SERVICE_KEY = None
   ∨ env !! URL = Some EmptyString ∨ env !! SERVICE_KEY = Some EmptyString →
   init_supabase_client env = ([ShowError MISSING_CONFIG; Stop], None)
   ∧ script env = [ShowError MISSING_CONFIG; Stop]
   ∧ Forall (λ ev, is_data_access ev = false) (script env))
  ∧ (∀ url key,
       env !! URL = Some url → env !! SERVICE_KEY = Some key →
       url ≠ EmptyString → key ≠ EmptyString →
       init_supabase_client env = ([CreateClient url key], Some (url, key))
       ∧ script env = CreateClient url key :: fetches
       ∧ (ShowError MISSING_CONFIG ∉ script env) ∧ (Stop ∉ script env)).
Proof.
  unfold script, init_supabase_client, URL, SERVICE_KEY. split.
  - intros Hmiss.
    assert (negb (truthy (env !! "SUPABASE_URL"))
            || negb (truthy (env !! "SUPABASE_SERVICE_KEY")) = true) as ->.
    { destruct Hmiss as [-> | [-> | [-> | ->]]]; simpl;
        rewrite ?orb_true_r; reflexivity. }
    repeat split. repeat constructor.
  - intros url key -> -> Hu Hk.
    rewrite (truthy_Some_nonempty _ Hu), (truthy_Some_nonempty _ Hk). simpl.
    repeat split.
    + intros Hin. repeat (apply elem_of_cons in Hin as [Hin|Hin];
                          [discriminate|]).
      apply elem_of_nil in Hin. exact Hin.
    + intros Hin. repeat (apply elem_of_cons in Hin as [Hin|Hin];
                          [discriminate|]).
      apply elem_of_nil in Hin. exact Hin.
Qed.

Lemma startup_guard_witness :
  (env_no_key !! SERVICE_KEY = None
   ∧ script env_no_key = [ShowError MISSING_CONFIG; Stop])
  ∧ (env_complete !! URL = Some "https://project.supabase.co"
     ∧ env_complete !! SERVICE_KEY = Some "secret"
     ∧ script env_complete
       = CreateClient "https://project.supabase.co" "secret" :: fetches).
Proof.
  assert (env_no_key !! SERVICE_KEY = None) as Hnone by reflexivity.
  assert (env_complete !! URL = Some "https://project.supabase.co") as Hu
    by reflexivity.
  assert (env_complete !! SERVICE_KEY = Some "secret") as Hk by reflexivity.
  split.
  - split; [exact Hnone|].
    apply (proj1 (startup_guard env_no_key)). right. left. exact Hnone.
  - split; [exact Hu|]. split; [exact Hk|].
    apply (proj2 (startup_guard env_complete) _ _ Hu Hk); discriminate.
Defined.

(** * Further properties of the code *)

(** ** Which conversations are classified *)

Lemma is_ai_type m : is_ai m = true ↔ type m = Some "ai".
Proof.
  unfold is_ai. destruct (type m) as [ty|]; [|split; discriminate].
  rewrite String.eqb_eq. split; congruence.
Qed.

Lemma message_outcome_Lead m :
  message_outcome m = Some Lead ↔ lead_message m.
Proof.
  unfold message_outcome, lead_message. rewrite <- is_ai_type.
  destruct (is_ai m); [|split; [discriminate|intros [? _]; discriminate]].
  destruct (content_of m) as [c|]; simpl.
  - unfold marker_outcome. split.
    + intros Ho. split; [reflexivity|]. exists c. split; [reflexivity|].
      destruct (contains LEAD_TRIAL c); [auto|].
      destruct (contains LEAD_PARTY c); [auto|].
      destruct (contains ESCALATION c); discriminate.
    + intros (_ & c' & Hc & H). injection Hc as <-.
      destruct H as [-> | H]; [reflexivity|].
      destruct (contains LEAD_TRIAL c); [reflexivity|]. rewrite H. reflexivity.
  - split; [discriminate|]. intros (_ & c & Hc & _). discriminate.
Qed.

Lemma message_outcome_Escalation m :
  message_outcome m = Some Escalation ↔ escalation_message m.
Proof.
  unfold message_outcome, escalation_message. rewrite <- is_ai_type.
  destruct (is_ai m); [|split; [discriminate|intros [? _]; discriminate]].
  destruct (content_of m) as [c|]; simpl.
  - unfold marker_outcome. split.
    + intros Ho. split; [reflexivity|]. exists c. split; [reflexivity|].
      destruct (contains LEAD_TRIAL c); [discriminate|].
      destruct (contains LEAD_PARTY c); [discriminate|].
      destruct (contains ESCALATION c); [auto|discriminate].
    + intros (_ & c' & Hc & H1 & H2 & H3). injection Hc as <-.
      rewrite H2, H3, H1. reflexivity.
  - split; [discriminate|]. intros (_ & c & Hc & _). discriminate.
Qed.

Lemma occurrences_pos_iff o h :
  0 < occurrences o h ↔ ∃ m, m ∈ h ∧ message_outcome m = Some o.
Proof.
  split; [apply occurrences_pos|]. intros (m & Hm & Ho). unfold occurrences.
  assert (m ∈ filter (λ m, message_outcome m = Some o) h) as Hf
    by (apply list_elem_of_filter; auto).
  destruct (filter _ h); [apply elem_of_nil in Hf; contradiction|simpl; lia].
Qed.

(** X1: after a pass that completes, a conversation is in the leads exactly
    when it is in the batch and one of its AI messages contains a lead
    phrase; it is in the escalations exactly when one of its AI messages
    contains the escalation phrase and neither lead phrase. *)
Theorem classified_iff convs l e conv :
  classify convs = Ok (l, e) →
  (conv ∈ l ↔ conv ∈ convs ∧ ∃ m, m ∈ get_history conv ∧ lead_message m)
  ∧ (conv ∈ e ↔
     conv ∈ convs ∧ ∃ m, m ∈ get_history conv ∧ escalation_message m).
Proof.
  intros Hok. apply classify_Ok_inv in Hok as (_ & -> & ->).
  rewrite !elem_of_bucket, !occurrences_pos_iff. split.
  - split; intros [Hc (m & Hm & Ho)]; (split; [exact Hc|]); exists m;
      (split; [exact Hm|]); apply message_outcome_Lead; exact Ho.
  - split; intros [Hc (m & Hm & Ho)]; (split; [exact Hc|]); exists m;
      (split; [exact Hm|]); apply message_outcome_Escalation; exact Ho.
Qed.

Lemma classified_iff_witness :
  classify [conv_both_in_one; conv_small_talk] = Ok ([conv_both_in_one], [])
  ∧ (conv_both_in_one ∈ [conv_both_in_one]
     ↔ conv_both_in_one ∈ [conv_both_in_one; conv_small_talk]
       ∧ ∃ m, m ∈ get_history conv_both_in_one ∧ lead_message m)
  ∧ (conv_both_in_one ∈ []
     ↔ conv_both_in_one ∈ [conv_both_in_one; conv_small_talk]
       ∧ ∃ m, m ∈ get_history conv_both_in_one ∧ escalation_message m).
Proof.
  assert (classify [conv_both_in_one; conv_small_talk]
          = Ok ([conv_both_in_one], [])) as Hok by (vm_compute; reflexivity).
  split; [exact Hok|].
  exact (classified_iff _ _ _ conv_both_in_one Hok).
Defined.

(** ** Which error, and how passes compose *)

Lemma scan_message_missing conv m st :
  missing_field m → scan_message conv m st = Raise (KeyError (missing_key m)).
Proof.
  unfold missing_field, missing_key, scan_message, message_content, is_ai,
    content_of.
  intros [Hty|[Hai Hc]].
  - rewrite Hty. reflexivity.
  - destruct (type m) as [ty|]; [|discriminate]. unfold_result. simpl.
    rewrite Hai. destruct (data m) as [d|]; simpl in *; [|reflexivity].
    rewrite Hc. reflexivity.
Qed.

Lemma scan_history_first_missing conv hpre m hpost : ∀ st,
  Forall scannable hpre → missing_field m →
  scan_history conv (hpre ++ m :: hpost) st
  = Raise (KeyError (missing_key m)).
Proof.
  induction hpre as [|x hpre IH]; intros st Hpre Hm; simpl.
  - rewrite (scan_message_missing _ _ _ Hm). reflexivity.
  - inversion Hpre as [|? ? Hx Hpre']; subst.
    rewrite (scan_message_scannable _ _ _ Hx). unfold_result.
    apply IH; assumption.
Qed.

Lemma scan_history_state conv h : ∀ st st' e,
  scan_history conv h st = Raise e → scan_history conv h st' = Raise e.
Proof.
  induction h as [|m h IH]; intros st st' e; simpl; [discriminate|].
  destruct (decide (scannable m)) as [Hm|Hm].
  - rewrite !(scan_message_scannable _ _ _ Hm). unfold_result. apply IH.
  - apply missing_field_not_scannable in Hm.
    rewrite !(scan_message_missing _ _ _ Hm). unfold_result. auto.
Qed.

Lemma scan_conversations_state convs : ∀ st st' e,
  scan_conversations convs st = Raise e →
  scan_conversations convs st' = Raise e.
Proof.
  induction convs as [|conv convs IH]; intros st st' e; simpl; [discriminate|].
  destruct (scan_history conv (get_history conv) st) as [s|e1] eqn:H1.
  - assert (Forall scannable (get_history conv)) as Hc.
    { destruct (decide (Forall scannable (get_history conv))) as [Hc|Hc];
        [exact Hc|].
      destruct (scan_history_not_scannable conv _ st Hc) as [k Hk].
      congruence. }
    rewrite (scan_history_scannable _ _ st' Hc). unfold_result. apply IH.
  - rewrite (scan_history_state _ _ _ st' _ H1). unfold_result. auto.
Qed.

Lemma scan_conversations_shift convs (st : Buckets) :
  scan_conversations convs st
  = match classify convs with
    | Ok (l, e) => Ok (st.1 ++ l, st.2 ++ e)
    | Raise err => Raise err
    end.
Proof.
  destruct (classify convs) as [[l e]|err] eqn:Hc.
  - apply classify_Ok_inv in Hc as (Hall & -> & ->).
    apply scan_conversations_scannable, Hall.
  - apply (scan_conversations_state _ _ st _ Hc).
Qed.

Lemma scan_conversations_app a b : ∀ st,
  scan_conversations (a ++ b) st
  = scan_conversations a st ≫= scan_conversations b.
Proof.
  induction a as [|conv a IH]; intros st; simpl; [reflexivity|].
  unfold_result.
  destruct (scan_history conv (get_history conv) st); [apply IH|reflexivity].
Qed.

(** X2: classifying two batches one after the other gives the lists of the
    first followed by the lists of the second; an error of the first batch,
    else of the second, is the error of the whole. *)
Theorem classify_app a b :
  classify (a ++ b)
  = match classify a with
    | Raise err => Raise err
    | Ok (la, ea) =>
        match classify b with
        | Raise err => Raise err
        | Ok (lb, eb) => Ok (la ++ lb, ea ++ eb)
        end
    end.
Proof.
  unfold classify at 1. rewrite scan_conversations_app.
  fold (classify a). destruct (classify a) as [[la ea]|err]; [|reflexivity].
  unfold_result. rewrite scan_conversations_shift. reflexivity.
Qed.

(** X3: the error of a pass is the [KeyError] of the first message, in batch
    and history order, with a missing field, and names the first key missing
    from it: ["type"], else ["data"], else ["content"]. *)
Theorem first_missing_field_reported pre conv post hpre m hpost :
  Forall scannable_conv pre →
  get_history conv = hpre ++ m :: hpost →
  Forall scannable hpre →
  missing_field m →
  classify (pre ++ conv :: post) = Raise (KeyError (missing_key m)).
Proof.
  intros Hpre Hh Hhpre Hm. rewrite classify_app.
  rewrite (classify_scannable _ Hpre).
  change (conv :: post) with ([conv] ++ post). rewrite classify_app.
  assert (classify [conv] = Raise (KeyError (missing_key m))) as ->;
    [|reflexivity].
  unfold classify. simpl. rewrite Hh.
  rewrite (scan_history_first_missing _ _ _ _ _ Hhpre Hm). reflexivity.
Qed.

Lemma first_missing_field_reported_witness :
  Forall scannable_conv [conv_trial]
  ∧ get_history conv_no_type
    = [human "Hi"] ++ mkMessage None (Some (mkData (Some "Hello"))) :: []
  ∧ Forall scannable [human "Hi"]
  ∧ missing_field (mkMessage None (Some (mkData (Some "Hello"))))
  ∧ classify ([conv_trial] ++ conv_no_type :: [conv_malformed])
    = Raise (KeyError "type").
Proof.
  assert (Forall scannable_conv [conv_trial]) as Hpre.
  { repeat constructor; simpl; eauto. }
  assert (Forall scannable [human "Hi"]) as Hhpre.
  { repeat constructor; simpl; eauto. }
  assert (missing_field (mkMessage None (Some (mkData (Some "Hello")))))
    as Hm by (left; reflexivity).
  split; [exact Hpre|]. split; [reflexivity|]. split; [exact Hhpre|].
  split; [exact Hm|].
  exact (first_missing_field_reported [conv_trial] conv_no_type
           [conv_malformed] [human "Hi"]
           (mkMessage None (Some (mkData (Some "Hello")))) []
           Hpre eq_refl Hhpre Hm).
Defined.

(** ** The order in which the store returns the rows *)

(** X4: the store returns the conversations in no particular order, and the
    order does not matter to the metrics: a pass over a reordered batch
    completes when the pass over the batch does, with the same conversations
    as often in each list, and shows the same three counts. *)
Theorem classify_permutation convs convs' l e :
  convs ≡ₚ convs' →
  classify convs = Ok (l, e) →
  ∃ l' e', classify convs' = Ok (l', e')
           ∧ l ≡ₚ l' ∧ e ≡ₚ e'
           ∧ key_metrics convs' = key_metrics convs.
Proof.
  intros Hperm Hok. pose proof Hok as Hinv.
  apply classify_Ok_inv in Hinv as (Hall & -> & ->).
  assert (Forall scannable_conv convs') as Hall' by (rewrite <- Hperm; exact Hall).
  pose proof (classify_scannable _ Hall') as Hok'.
  exists (bucket Lead convs'), (bucket Escalation convs').
  assert (∀ o, bucket o convs ≡ₚ bucket o convs') as Hb.
  { intros o. unfold bucket. rewrite Hperm. reflexivity. }
  split; [exact Hok'|]. split; [apply Hb|]. split; [apply Hb|].
  rewrite (key_metrics_Ok _ _ _ Hok), (key_metrics_Ok _ _ _ Hok').
  rewrite (Permutation_length Hperm), (Permutation_length (Hb Lead)),
    (Permutation_length (Hb Escalation)). reflexivity.
Qed.

Lemma classify_permutation_witness :
  [conv_trial; conv_escalated_then_trial]
  ≡ₚ [conv_escalated_then_trial; conv_trial]
  ∧ classify [conv_trial; conv_escalated_then_trial]
    = Ok ([conv_trial; conv_escalated_then_trial], [conv_escalated_then_trial])
  ∧ ∃ l' e', classify [conv_escalated_then_trial; conv_trial] = Ok (l', e')
             ∧ [conv_trial; conv_escalated_then_trial] ≡ₚ l'
             ∧ [conv_escalated_then_trial] ≡ₚ e'
             ∧ key_metrics [conv_escalated_then_trial; conv_trial]
               = key_metrics [conv_trial; conv_escalated_then_trial].
Proof.
  assert ([conv_trial; conv_escalated_then_trial]
          ≡ₚ [conv_escalated_then_trial; conv_trial]) as Hperm
    by apply Permutation_swap.
  assert (classify [conv_trial; conv_escalated_then_trial]
          = Ok ([conv_trial; conv_escalated_then_trial],
                [conv_escalated_then_trial])) as Hok
    by (vm_compute; reflexivity).
  split; [exact Hperm|]. split; [exact Hok|].
  exact (classify_permutation _ _ _ _ Hperm Hok).
Defined.

(** X5: for conversations whose timestamps share one layout, or are empty,
    the histogram does not depend on the order in which the store returned
    them. *)
Theorem conv_by_date_permutation
    (pandas_other : list string → result (list (option date)))
    (l : layout) (convs convs' : list Conversation) :
  convs ≡ₚ convs' →
  one_layout l (updated_at <$> convs) →
  conv_by_date pandas_other convs = conv_by_date pandas_other convs'.
Proof.
  intros Hperm Hl.
  assert (one_layout l (updated_at <$> convs')) as Hl'.
  { unfold one_layout in *. rewrite <- Hperm. exact Hl. }
  destruct convs as [|c convs], convs' as [|c' convs'].
  - reflexivity.
  - apply Permutation_nil_l in Hperm. discriminate.
  - apply Permutation_nil_r in Hperm. discriminate.
  - unfold conv_by_date.
    rewrite (date_column_one_layout _ l _ Hl),
      (date_column_one_layout _ l _ Hl').
    unfold_result. do 2 f_equal. apply map_eq. intros d.
    rewrite !groupby_size_lookup. cbv zeta. rewrite !dates_on.
    assert (updated_on d (c :: convs) = updated_on d (c' :: convs')) as ->;
      [|reflexivity].
    unfold updated_on. apply Permutation_length.
    apply (filter_Permutation _ _ _ Hperm).
Qed.

Lemma conv_by_date_permutation_witness :
  [conv_trial; conv_no_content] ≡ₚ [conv_no_content; conv_trial]
  ∧ one_layout Seconds (updated_at <$> [conv_trial; conv_no_content])
  ∧ conv_by_date sample_pandas_other [conv_trial; conv_no_content]
    = conv_by_date sample_pandas_other [conv_no_content; conv_trial].
Proof.
  assert ([conv_trial; conv_no_content] ≡ₚ [conv_no_content; conv_trial])
    as Hperm by apply Permutation_swap.
  assert (one_layout Seconds (updated_at <$> [conv_trial; conv_no_content]))
    as Hl.
  { unfold one_layout. simpl.
    repeat (constructor; [right; eexists; reflexivity|]). constructor. }
  split; [exact Hperm|]. split; [exact Hl|].
  exact (conv_by_date_permutation sample_pandas_other _ _ _ Hperm Hl).
Defined.

(** ** Recent conversations with equal timestamps *)

Lemma filter_insert_desc k conv l :
  filter (λ c, updated_at c = k) (insert_desc conv l)
  = filter (λ c, updated_at c = k) (conv :: l).
Proof.
  induction l as [|y l IH]; [reflexivity|]. cbn [insert_desc].
  destruct (String.ltb (updated_at conv) (updated_at y)) eqn:Hlt;
    [|reflexivity].
  rewrite (filter_cons _ y), IH, !(filter_cons _ conv), (filter_cons _ y).
  destruct (decide (updated_at conv = k)) as [Hc|Hc]; [|reflexivity].
  destruct (decide (updated_at y = k)) as [Hy|Hy]; [|reflexivity].
  exfalso. rewrite Hc, Hy in Hlt. unfold String.ltb in Hlt.
  assert (String.compare k k = Eq) as Hkk.
  { destruct (String.compare k k) eqn:Hcmp; [reflexivity| |];
      pose proof (String.compare_antisym k k) as Ha; rewrite Hcmp in Ha;
      discriminate. }
  rewrite Hkk in Hlt. discriminate.
Qed.

(** X6: the sort is stable: conversations with the same [updated_at] come out
    in the order in which the store returned them. *)
Theorem sorted_convs_stable convs k :
  filter (λ c, updated_at c = k) (sorted_convs convs)
  = filter (λ c, updated_at c = k) convs.
Proof.
  induction convs as [|c convs IH]; [reflexivity|].
  cbn [sorted_convs foldr]. rewrite filter_insert_desc, !filter_cons.
  fold (sorted_convs convs). rewrite IH. reflexivity.
Qed.

(** X7: whatever the timestamps, equal ones included, the tab shows
    [min 10 (length convs)] conversations, each no older than the next ones
    shown and than every conversation left out, and the ones shown together
    with the ones left out are the conversations of the list. *)
Theorem recent_conversations_sorted convs :
  length (recent_conversations convs) = min 10 (length convs)
  ∧ StronglySorted not_older (recent_conversations convs)
  ∧ ∃ hidden,
      recent_conversations convs ++ hidden ≡ₚ convs
      ∧ ∀ c c', c' ∈ recent_conversations convs → c ∈ hidden →
                not_older c' c.
Proof.
  rewrite recent_conversations_take.
  pose proof (sorted_convs_perm convs) as Hperm.
  pose proof (sorted_convs_sorted convs) as Hsorted.
  rewrite <- (take_drop 10 (sorted_convs convs)) in Hsorted.
  split; [rewrite length_take, Hperm; reflexivity|].
  split; [apply (StronglySorted_app_1_l _ _ _ Hsorted)|].
  exists (drop 10 (sorted_convs convs)).
  split; [rewrite take_drop; exact Hperm|].
  intros c c' Hc' Hc.
  apply (StronglySorted_app_1_elem_of _ _ _ _ _ Hsorted Hc' Hc).
Qed.

(** X8: when the [updated_at] values are distinct, the conversations shown do
    not depend on the order in which the store returned the rows. *)
Theorem recent_conversations_permutation convs convs' :
  convs ≡ₚ convs' →
  NoDup (updated_at <$> convs) →
  recent_conversations convs = recent_conversations convs'.
Proof.
  intros Hperm Hnd. rewrite !recent_conversations_take. f_equal.
  apply (StronglySorted_unique_strong not_older);
    [|apply sorted_convs_sorted|apply sorted_convs_sorted
     |rewrite !sorted_convs_perm; exact Hperm].
  intros x1 x2 H1 H2 H12 H21.
  rewrite sorted_convs_perm in H1. rewrite sorted_convs_perm, <- Hperm in H2.
  apply (NoDup_keys_inj convs); [exact Hnd|exact H1|exact H2|].
  unfold not_older in *. apply (anti_symm String.le); assumption.
Qed.

Lemma recent_conversations_permutation_witness :
  fifteen ≡ₚ reverse fifteen
  ∧ NoDup (updated_at <$> fifteen)
  ∧ recent_conversations fifteen = recent_conversations (reverse fifteen).
Proof.
  assert (fifteen ≡ₚ reverse fifteen) as Hperm
    by (symmetry; apply reverse_Permutation).
  assert (NoDup (updated_at <$> fifteen)) as Hnd.
  { apply (bool_decide_unpack (NoDup (updated_at <$> fifteen))).
    vm_compute. exact I. }
  split; [exact Hperm|]. split; [exact Hnd|].
  exact (recent_conversations_permutation _ _ Hperm Hnd).
Defined.

(** ** The detail of an arbitrary conversation *)

Lemma matching_contents_missing needle m rest :
  missing_field m →
  matching_contents needle (m :: rest) = Raise (KeyError (missing_key m)).
Proof.
  unfold missing_field, missing_key, message_content, is_ai, content_of.
  cbn [matching_contents]. unfold message_content.
  intros [Hty|[Hai Hc]].
  - rewrite Hty. reflexivity.
  - destruct (type m) as [ty|]; [|discriminate]. unfold_result. simpl.
    rewrite Hai. destruct (data m) as [d|]; simpl in *; [|reflexivity].
    rewrite Hc. reflexivity.
Qed.

Lemma matching_contents_not_scannable needle h :
  ¬ Forall scannable h → ∃ key, matching_contents needle h = Raise (KeyError key).
Proof.
  induction h as [|m h IH]; intros Hn.
  - exfalso. apply Hn. constructor.
  - destruct (decide (scannable m)) as [Hm|Hm].
    + assert (¬ Forall scannable h) as Hh
        by (intros Hh; apply Hn; constructor; assumption).
      destruct (IH Hh) as [k Hk].
      destruct Hm as [[ty Hty] Hc].
      cbn [matching_contents]. unfold is_ai, message_content, content_of in *.
      rewrite Hty in *. unfold_result. simpl.
      destruct (String.eqb ty "ai"); simpl; [|eauto].
      destruct (Hc eq_refl) as [c Hcont].
      destruct (data m) as [d|]; simpl in *; [|discriminate].
      rewrite Hcont. simpl. rewrite Hk.
      destruct (contains needle c); eauto.
    + apply missing_field_not_scannable in Hm.
      rewrite (matching_contents_missing _ _ _ Hm). eauto.
Qed.

Lemma first_ai_containing_Some needle h s :
  first_ai_containing needle h = Some s →
  ∃ m, m ∈ h ∧ type m = Some "ai" ∧ content_of m = Some s
       ∧ contains needle s = true.
Proof.
  induction h as [|m h IH]; [discriminate|]. cbn [first_ai_containing].
  destruct (content_of m) as [c|] eqn:Hc.
  - destruct (is_ai m) eqn:Hai; simpl.
    + destruct (contains needle c) eqn:Hn.
      * intros [= <-]. exists m. apply is_ai_type in Hai.
        split; [apply list_elem_of_here|auto].
      * intros Hs. destruct (IH Hs) as (m' & Hm' & ?).
        exists m'. split; [apply list_elem_of_further, Hm'|assumption].
    + intros Hs. destruct (IH Hs) as (m' & Hm' & ?).
      exists m'. split; [apply list_elem_of_further, Hm'|assumption].
  - intros Hs. destruct (IH Hs) as (m' & Hm' & ?).
    exists m'. split; [apply list_elem_of_further, Hm'|assumption].
Qed.

Lemma details_Ok_inv needle conv s :
  details needle conv = Ok s →
  ∃ h, history conv = Some h ∧ Forall scannable h
       ∧ first_ai_containing needle h = Some s.
Proof.
  unfold details. destruct (history conv) as [h|]; [|discriminate].
  unfold_result. simpl. intros Hd. exists h. split; [reflexivity|].
  destruct (decide (Forall scannable h)) as [Hall|Hn].
  - split; [exact Hall|].
    rewrite (matching_contents_scannable _ _ Hall) in Hd.
    rewrite <- head_kept. apply first_item_head, Hd.
  - destruct (matching_contents_not_scannable needle h Hn) as [k Hk].
    rewrite Hk in Hd. discriminate.
Qed.

(** X9: whenever a detail string is produced for a conversation, for any
    filter, it contains the filter and is the content of an AI message of
    that conversation, the first one containing the filter. *)
Theorem details_sound needle conv s :
  details needle conv = Ok s →
  contains needle s = true
  ∧ first_ai_containing needle (get_history conv) = Some s
  ∧ ∃ m, m ∈ get_history conv ∧ type m = Some "ai" ∧ content_of m = Some s.
Proof.
  intros Hd. apply details_Ok_inv in Hd as (h & Hh & _ & Hfirst).
  unfold get_history. rewrite Hh. simpl.
  destruct (first_ai_containing_Some _ _ _ Hfirst) as (m & Hm & Hty & Hc & Hn).
  split; [exact Hn|]. split; [exact Hfirst|]. eauto.
Qed.

Lemma details_sound_witness :
  details ESCALATION_FILTER conv_stray_escalation
  = Ok "I've passed your request for a quote to sales already."
  ∧ contains ESCALATION_FILTER
      "I've passed your request for a quote to sales already." = true.
Proof.
  assert (details ESCALATION_FILTER conv_stray_escalation
          = Ok "I've passed your request for a quote to sales already.")
    as Hd by (vm_compute; reflexivity).
  split; [exact Hd|]. exact (proj1 (details_sound _ _ _ Hd)).
Defined.

(** X10: taking the first element fails with [IndexError] exactly when the
    conversation has a history all of whose messages can be read and none of
    whose AI messages contains the filter; a conversation without a
    [history] key raises [KeyError] instead. *)
Theorem details_IndexError_iff needle conv :
  (details needle conv = Raise IndexError
   ↔ is_Some (history conv)
     ∧ Forall scannable (get_history conv)
     ∧ first_ai_containing needle (get_history conv) = None)
  ∧ (history conv = None →
     details needle conv = Raise (KeyError "history")).
Proof.
  unfold details, get_history. split.
  - destruct (history conv) as [h|]; simpl.
    + unfold_result. simpl. rewrite <- head_kept.
      destruct (decide (Forall scannable h)) as [Hall|Hn].
      * rewrite (matching_contents_scannable _ _ Hall).
        destruct (omap (kept needle) h) as [|x xs]; simpl; split.
        -- intros _. eauto.
        -- reflexivity.
        -- discriminate.
        -- intros (_ & _ & Hx). discriminate.
      * destruct (matching_contents_not_scannable needle h Hn) as [k ->].
        split; [discriminate|]. intros (_ & Hall & _). contradiction.
    + split; [discriminate|]. intros [[h Hh] _]. discriminate.
  - intros ->. reflexivity.
Qed.

(** ** The page *)

Example main_sample :
  main sample_pandas_other sample_strftime sample_capitalize [conv_trial] (Some 12)
    (Some "2024-02-01T08:15:00+00:00")
  = ([StTitle TITLE; StMarkdown INTRODUCTION] ++
     (show_key_metrics sample_strftime [conv_trial] [conv_trial] [] (Some 12)
        (Some "2024-02-01T08:15:00+00:00")).1 ++
     [StDivider] ++ (show_visualizations sample_pandas_other [conv_trial]).1 ++
     [StDivider] ++
     (show_data_tables sample_strftime sample_capitalize
        [conv_trial] [conv_trial] []).1,
     Ok tt).
Proof. vm_compute. reflexivity. Qed.

Example show_recent_sample :
  show_recent sample_capitalize [conv_trial]
  = ([StSubheader "Recent Conversations";
      StExpander "Conversation ID: c-2";
      StWrite "**Human:** Can I try it?";
      StWrite "**Ai:** Great news! I've scheduled your 7-day free trial."],
     Ok tt).
Proof. vm_compute. reflexivity. Qed.

Example show_leads_sample :
  show_leads sample_strftime [conv_trial]
  = ([StSubheader "Leads";
      StTable [mkTableRow "c-2" "2024-01-01 17:05"
                 "Great news! I've scheduled your 7-day free trial."]],
     Ok tt).
Proof. vm_compute. reflexivity. Qed.

Ltac unfold_render :=
  unfold mbind, render_bind, mret, render_ret, show, eval in *; simpl in *.

Section PageProperties.
Variable pandas_other : list string → result (list (option date)).
Variable strftime : string → string.
Variable capitalize : string → string.

Lemma for_each_Ok_iff {A : Type} (xs : list A)
    (body : A → render unit) :
  (for_each xs body).2 = Ok tt ↔ Forall (λ x, (body x).2 = Ok tt) xs.
Proof.
  induction xs as [|x xs IH]; simpl.
  - split; [constructor|reflexivity].
  - unfold_render. rewrite Forall_cons, <- IH.
    destruct (body x) as [t [[]|e]]; simpl; split; auto.
    + intros [_ Hrest]. exact Hrest.
    + discriminate.
    + intros [Hx _]. discriminate.
Qed.

Lemma for_each_Raise {A : Type} (xs : list A)
    (body : A → render unit) e :
  (for_each xs body).2 = Raise e → ∃ x, x ∈ xs ∧ (body x).2 = Raise e.
Proof.
  induction xs as [|x xs IH]; simpl; [discriminate|].
  unfold_render. destruct (body x) as [t [[]|e']] eqn:Hb; simpl.
  - intros Hr. destruct (IH Hr) as (y & Hy & He).
    exists y. split; [apply list_elem_of_further, Hy|exact He].
  - intros [= ->]. exists x. rewrite Hb. split; [apply list_elem_of_here|auto].
Qed.

Lemma for_each_widgets {A : Type} (xs : list A)
    (body : A → render unit) w :
  w ∈ (for_each xs body).1 → ∃ x, x ∈ xs ∧ w ∈ (body x).1.
Proof.
  induction xs as [|x xs IH]; simpl.
  - intros Hw. apply elem_of_nil in Hw. contradiction.
  - unfold_render. destruct (body x) as [t [[]|e']] eqn:Hb; simpl.
    + intros Hw. apply elem_of_app in Hw as [Hw|Hw].
      * exists x. rewrite Hb. split; [apply list_elem_of_here|exact Hw].
      * destruct (IH Hw) as (y & Hy & Hwy).
        exists y. split; [apply list_elem_of_further, Hy|exact Hwy].
    + intros Hw. exists x. rewrite Hb. split; [apply list_elem_of_here|exact Hw].
Qed.

Lemma show_message_Ok_iff m :
  (show_message capitalize m).2 = Ok tt ↔ well_formed m.
Proof.
  unfold show_message, well_formed, message_content, content_of.
  unfold_render. unfold_result.
  destruct (type m) as [ty|]; simpl.
  - destruct (data m) as [d|]; simpl.
    + destruct (content d) as [c|]; simpl; split; eauto.
      * discriminate.
      * intros [_ [? ?]]. discriminate.
    + split; [discriminate|]. intros [_ [? ?]]. discriminate.
  - split; [discriminate|]. intros [[? ?] _]. discriminate.
Qed.

Lemma show_message_Raise m e :
  (show_message capitalize m).2 = Raise e → ∃ key, e = KeyError key.
Proof.
  unfold show_message, message_content. unfold_render. unfold_result.
  destruct (type m) as [ty|]; simpl; [|intros [= <-]; eauto].
  destruct (data m) as [d|]; simpl; [|intros [= <-]; eauto].
  destruct (content d) as [c|]; simpl; [discriminate|intros [= <-]; eauto].
Qed.

Lemma show_message_widgets m w :
  w ∈ (show_message capitalize m).1 → first_tab_widget w = true.
Proof.
  unfold show_message, message_content. unfold_render. unfold_result.
  destruct (type m) as [ty|]; simpl;
    [|intros Hw; apply elem_of_nil in Hw; contradiction].
  destruct (data m) as [d|]; simpl;
    [|intros Hw; apply elem_of_nil in Hw; contradiction].
  destruct (content d) as [c|]; simpl;
    [|intros Hw; apply elem_of_nil in Hw; contradiction].
  intros Hw. apply list_elem_of_singleton in Hw as ->. reflexivity.
Qed.

Lemma show_conversation_Ok_iff conv :
  (show_conversation capitalize conv).2 = Ok tt ↔ renderable conv.
Proof.
  unfold show_conversation, renderable, get_history. unfold_render.
  destruct (history conv) as [h|]; simpl.
  - rewrite for_each_Ok_iff. split.
    + intros Hall. split; [eauto|].
      eapply Forall_impl; [exact Hall|]. intros m. apply show_message_Ok_iff.
    + intros [_ Hall]. eapply Forall_impl; [exact Hall|].
      intros m. apply show_message_Ok_iff.
  - split; [discriminate|]. intros [[? ?] _]. discriminate.
Qed.

Lemma show_conversation_Raise conv e :
  (show_conversation capitalize conv).2 = Raise e → ∃ key, e = KeyError key.
Proof.
  unfold show_conversation. unfold_render.
  destruct (history conv) as [h|]; simpl; [|intros [= <-]; eauto].
  intros Hr. apply for_each_Raise in Hr as (m & _ & Hm).
  apply show_message_Raise in Hm. exact Hm.
Qed.

Lemma show_conversation_widgets conv w :
  w ∈ (show_conversation capitalize conv).1 → first_tab_widget w = true.
Proof.
  unfold show_conversation. unfold_render.
  destruct (history conv) as [h|]; simpl.
  - intros Hw. apply elem_of_cons in Hw as [->|Hw]; [reflexivity|].
    apply for_each_widgets in Hw as (m & _ & Hm).
    apply show_message_widgets in Hm. exact Hm.
  - intros Hw. apply list_elem_of_singleton in Hw as ->. reflexivity.
Qed.

Lemma show_recent_Ok_iff convs :
  (show_recent capitalize convs).2 = Ok tt
  ↔ Forall renderable (recent_conversations convs).
Proof.
  unfold show_recent. unfold_render. destruct convs as [|c convs]; simpl.
  - split; [constructor|reflexivity].
  - rewrite for_each_Ok_iff. split; intros Hall;
      (eapply Forall_impl; [exact Hall|]); intros conv;
      apply show_conversation_Ok_iff.
Qed.

Lemma show_recent_Raise convs e :
  (show_recent capitalize convs).2 = Raise e → ∃ key, e = KeyError key.
Proof.
  unfold show_recent. unfold_render. destruct convs as [|c convs]; simpl;
    [discriminate|].
  intros Hr. apply for_each_Raise in Hr as (conv & _ & Hc).
  apply show_conversation_Raise in Hc. exact Hc.
Qed.

Lemma show_recent_widgets convs w :
  w ∈ (show_recent capitalize convs).1 → first_tab_widget w = true.
Proof.
  unfold show_recent. unfold_render. destruct convs as [|c convs]; simpl.
  - intros Hw. apply elem_of_cons in Hw as [->|Hw]; [reflexivity|].
    apply list_elem_of_singleton in Hw as ->. reflexivity.
  - intros Hw. apply elem_of_cons in Hw as [->|Hw]; [reflexivity|].
    apply for_each_widgets in Hw as (conv & _ & Hc).
    apply show_conversation_widgets in Hc. exact Hc.
Qed.

(** *** The tables *)

Lemma table_rows_Ok needle rows :
  (∀ conv, conv ∈ rows → ∃ s, details needle conv = Ok s) →
  ∃ rs, table_rows strftime needle rows = Ok rs ∧ length rs = length rows.
Proof.
  induction rows as [|conv rows IH]; intros Hall.
  - exists []. split; reflexivity.
  - destruct (Hall conv (list_elem_of_here _ _)) as [s Hs].
    destruct IH as (rs & Hrs & Hlen).
    { intros c Hc. apply Hall, list_elem_of_further, Hc. }
    eexists. cbn [table_rows]. rewrite Hs. unfold_result. rewrite Hrs.
    split; [reflexivity|]. simpl. rewrite Hlen. reflexivity.
Qed.

(** X11: a table that is built has one row per entry of the list it is built
    from, in the same order, carrying that conversation's id, its formatted
    timestamp and its detail, and every detail contains the filter of the
    table. *)
Theorem table_rows_sound needle rows rs :
  table_rows strftime needle rows = Ok rs →
  Forall2 (λ conv r,
             row_conversation_id r = conversation_id conv
             ∧ row_last_updated r = strftime (updated_at conv)
             ∧ details needle conv = Ok (row_details r)
             ∧ contains needle (row_details r) = true) rows rs.
Proof.
  revert rs. induction rows as [|conv rows IH]; intros rs Hrs.
  - injection Hrs as <-. constructor.
  - cbn [table_rows] in Hrs. unfold_result.
    destruct (details needle conv) as [d|] eqn:Hd; [|discriminate].
    destruct (table_rows strftime needle rows) as [rs'|]; [|discriminate].
    injection Hrs as <-. constructor; [|apply IH; reflexivity].
    simpl. repeat split; [exact Hd|].
    apply (proj1 (details_sound _ _ _ Hd)).
Qed.

Lemma show_table_Ok title empty needle rows :
  (∀ conv, conv ∈ rows → ∃ s, details needle conv = Ok s) →
  (show_table strftime title empty needle rows).2 = Ok tt.
Proof.
  intros Hall. unfold show_table. unfold_render.
  destruct rows as [|c rows]; [reflexivity|].
  destruct (table_rows_Ok needle (c :: rows) Hall) as (rs & -> & _).
  reflexivity.
Qed.

Lemma show_key_metrics_Ok convs l e kb li :
  (show_key_metrics strftime convs l e kb li).2 = Ok tt
  ∧ Forall (λ w, head_widget w = true)
      (show_key_metrics strftime convs l e kb li).1.
Proof.
  unfold show_key_metrics. unfold_render.
  destruct (truthy li); simpl; split; try reflexivity; repeat constructor.
Qed.

Lemma show_visualizations_widgets convs :
  Forall (λ w, head_widget w = true) (show_visualizations pandas_other convs).1.
Proof.
  unfold show_visualizations. unfold_render.
  destruct (conv_by_date pandas_other convs) as [[chart|]|err]; simpl;
    repeat constructor.
Qed.

Lemma show_visualizations_result convs :
  (show_visualizations pandas_other convs).2
  = match conv_by_date pandas_other convs with
    | Ok _ => Ok tt
    | Raise err => Raise err
    end.
Proof.
  unfold show_visualizations. unfold_render.
  destruct (conv_by_date pandas_other convs) as [[chart|]|err]; reflexivity.
Qed.

Lemma conv_by_date_one_layout convs l :
  one_layout l (updated_at <$> convs) →
  ∃ chart, conv_by_date pandas_other convs = Ok chart.
Proof.
  intros Hl. destruct convs as [|c convs]; [eexists; reflexivity|].
  unfold conv_by_date. rewrite (date_column_one_layout _ l _ Hl).
  eexists. reflexivity.
Qed.

Lemma conv_by_date_store convs :
  store_timestamps (updated_at <$> convs) →
  ((∃ l, one_layout l (updated_at <$> convs))
   ∧ ∃ chart, conv_by_date pandas_other convs = Ok chart)
  ∨ ((¬ ∃ l, one_layout l (updated_at <$> convs))
     ∧ conv_by_date pandas_other convs = Raise ValueError).
Proof.
  intros Hstore.
  destruct (date_column_store pandas_other _ Hstore)
    as [[[l Hl] _]|[Hmixed Hraise]].
  - left. split; [eauto|]. apply (conv_by_date_one_layout _ l Hl).
  - right. split; [exact Hmixed|].
    destruct convs as [|c convs].
    + exfalso. apply Hmixed. exists Seconds. constructor.
    + unfold conv_by_date. rewrite Hraise. reflexivity.
Qed.

Lemma main_unclassified convs kb li err :
  classify convs = Raise err →
  main pandas_other strftime capitalize convs kb li
  = ([StTitle TITLE; StMarkdown INTRODUCTION], Raise err).
Proof. intros Hc. unfold main. rewrite Hc. reflexivity. Qed.

Lemma main_classified convs kb li l e :
  classify convs = Ok (l, e) →
  (show_visualizations pandas_other convs).2 = Ok tt →
  main pandas_other strftime capitalize convs kb li
  = ([StTitle TITLE; StMarkdown INTRODUCTION]
     ++ (show_key_metrics strftime convs l e kb li).1
     ++ StDivider :: (show_visualizations pandas_other convs).1
     ++ StDivider :: (show_data_tables strftime capitalize convs l e).1,
     (show_data_tables strftime capitalize convs l e).2).
Proof.
  intros Hc Hvis. unfold main. rewrite Hc.
  destruct (show_key_metrics_Ok convs l e kb li) as [Hkm _].
  unfold mbind, render_bind, show, eval. cbn [fst snd].
  rewrite Hkm. cbn [fst snd]. rewrite Hvis. reflexivity.
Qed.

Lemma main_uncharted convs kb li l e err :
  classify convs = Ok (l, e) →
  (show_visualizations pandas_other convs).2 = Raise err →
  main pandas_other strftime capitalize convs kb li
  = ([StTitle TITLE; StMarkdown INTRODUCTION]
     ++ (show_key_metrics strftime convs l e kb li).1
     ++ StDivider :: (show_visualizations pandas_other convs).1,
     Raise err).
Proof.
  intros Hc Hvis. unfold main. rewrite Hc.
  destruct (show_key_metrics_Ok convs l e kb li) as [Hkm _].
  unfold mbind, render_bind, show, eval. cbn [fst snd].
  rewrite Hkm. cbn [fst snd]. rewrite Hvis. reflexivity.
Qed.

Lemma show_data_tables_result convs l e :
  (∀ conv, conv ∈ l → ∃ s, details LEAD_FILTER conv = Ok s) →
  (∀ conv, conv ∈ e → ∃ s, details ESCALATION_FILTER conv = Ok s) →
  (show_data_tables strftime capitalize convs l e).2
  = (show_recent capitalize convs).2.
Proof.
  intros Hl He. unfold show_data_tables, show_leads, show_escalations.
  pose proof (show_table_Ok "Leads" "No leads generated yet." _ l Hl) as HL.
  pose proof (show_table_Ok "Escalations" "No escalations yet." _ e He) as HE.
  unfold mbind, render_bind, show. cbn [fst snd].
  destruct (show_recent capitalize convs).2 as [[]|err]; [|reflexivity].
  cbn [fst snd]. rewrite HL. cbn [fst snd]. exact HE.
Qed.

Lemma show_data_tables_cut convs l e err :
  (show_recent capitalize convs).2 = Raise err →
  Forall (λ w, head_widget w || first_tab_widget w = true)
    (show_data_tables strftime capitalize convs l e).1.
Proof.
  intros Hr. pose proof (show_recent_widgets convs) as Hw.
  unfold show_data_tables.
  remember (show_recent capitalize convs) as r eqn:Er.
  unfold mbind, render_bind, show. cbn [fst snd]. rewrite Hr. cbn [fst snd].
  constructor; [reflexivity|]. constructor; [reflexivity|].
  apply Forall_forall. intros w Hin.
  rewrite (Hw w Hin). apply orb_true_r.
Qed.

Lemma classified_details convs l e :
  classify convs = Ok (l, e) →
  (∀ conv, conv ∈ l → ∃ s, details LEAD_FILTER conv = Ok s)
  ∧ (∀ conv, conv ∈ e → ∃ s, details ESCALATION_FILTER conv = Ok s).
Proof.
  intros Hok. apply classify_Ok_inv in Hok as (Hall & -> & ->). split.
  - intros conv Hin.
    destruct (details_of_bucket Lead LEAD_FILTER conv convs
                lead_marker_filter Hall Hin) as (_ & s & _ & _ & _ & Hs & _).
    eauto.
  - intros conv Hin.
    destruct (details_of_bucket Escalation ESCALATION_FILTER conv convs
                escalation_marker_filter Hall Hin)
      as (_ & s & _ & _ & _ & Hs & _).
    eauto.
Qed.

(** *** The whole page *)

(** X12: when a message of the batch has a missing field, the page stops
    after its title and introduction: the error leaves [main] before any
    metric, chart or table is drawn. *)
Theorem main_stops_at_classification convs kb li :
  Exists (λ conv, Exists missing_field (get_history conv)) convs →
  ∃ key, main pandas_other strftime capitalize convs kb li
         = ([StTitle TITLE; StMarkdown INTRODUCTION], Raise (KeyError key)).
Proof.
  intros Hex. apply Exists_missing_field in Hex.
  destruct (scan_conversations_not_scannable convs ([], []) Hex) as [key Hk].
  exists key. apply main_unclassified, Hk.
Qed.

(** X13: for conversations with timestamps of the store, [main] runs to its
    end exactly when every message of the batch can be classified, the
    timestamps share one layout, and each conversation shown in the first tab
    has a history whose messages all have their type and content. *)
Theorem main_completes_iff convs kb li :
  store_timestamps (updated_at <$> convs) →
  (main pandas_other strftime capitalize convs kb li).2 = Ok tt
  ↔ Forall scannable_conv convs
    ∧ (∃ l, one_layout l (updated_at <$> convs))
    ∧ Forall renderable (recent_conversations convs).
Proof.
  intros Hstore.
  destruct (classify convs) as [[l e]|err] eqn:Hc.
  - pose proof (classify_Ok_inv _ _ _ Hc) as (Hall & _).
    destruct (classified_details _ _ _ Hc) as [Hl He].
    pose proof (show_visualizations_result convs) as Hvis.
    destruct (conv_by_date_store convs Hstore) as [[Hone Hok]|[Hmixed Hraise]].
    + destruct Hok as [chart Hok]. rewrite Hok in Hvis.
      rewrite (main_classified _ _ _ _ _ Hc Hvis). cbn [snd].
      rewrite (show_data_tables_result _ _ _ Hl He), show_recent_Ok_iff.
      tauto.
    + rewrite Hraise in Hvis.
      rewrite (main_uncharted _ _ _ _ _ _ Hc Hvis). cbn [snd].
      split; [discriminate|]. intros (_ & Hone & _). contradiction.
  - rewrite (main_unclassified _ _ _ _ Hc). cbn [snd].
    split; [discriminate|]. intros [Hall _].
    rewrite (classify_scannable _ Hall) in Hc. discriminate.
Qed.

(** X14: for conversations with timestamps of the store, whatever the
    document count and the last ingestion, an exception that leaves [main] is
    a [KeyError] or the [ValueError] of line 97: no [[0]] of the detail
    columns is ever out of range. *)
Theorem main_never_IndexError convs kb li err :
  store_timestamps (updated_at <$> convs) →
  (main pandas_other strftime capitalize convs kb li).2 = Raise err →
  (∃ key, err = KeyError key) ∨ err = ValueError.
Proof.
  intros Hstore.
  destruct (classify convs) as [[l e]|err'] eqn:Hc.
  - destruct (classified_details _ _ _ Hc) as [Hl He].
    pose proof (show_visualizations_result convs) as Hvis.
    destruct (conv_by_date_store convs Hstore) as [[Hone Hok]|[Hmixed Hraise]].
    + destruct Hok as [chart Hok]. rewrite Hok in Hvis.
      rewrite (main_classified _ _ _ _ _ Hc Hvis). cbn [snd].
      rewrite (show_data_tables_result _ _ _ Hl He).
      intros Hr. left. apply (show_recent_Raise _ _ Hr).
    + rewrite Hraise in Hvis.
      rewrite (main_uncharted _ _ _ _ _ _ Hc Hvis). cbn [snd].
      intros [= <-]. right. reflexivity.
  - rewrite (main_unclassified _ _ _ _ Hc). cbn [snd]. intros [= <-]. left.
    destruct (decide (Forall scannable_conv convs)) as [Hall|Hn].
    + rewrite (classify_scannable _ Hall) in Hc. discriminate.
    + destruct (scan_conversations_not_scannable convs ([], []) Hn) as [k Hk].
      unfold classify in Hc. rewrite Hk in Hc. injection Hc as <-. eauto.
Qed.

(** X15: when the batch is classified and its timestamps share one layout,
    but a conversation shown in the first tab cannot be drawn, [main] raises
    [KeyError] with the metrics already on the page and the leads and
    escalations tabs never drawn: the page has neither their subheaders nor
    any table. *)
Theorem main_page_cut_short convs kb li l e layout_of_column :
  classify convs = Ok (l, e) →
  one_layout layout_of_column (updated_at <$> convs) →
  ¬ Forall renderable (recent_conversations convs) →
  (∃ key, (main pandas_other strftime capitalize convs kb li).2
          = Raise (KeyError key))
  ∧ (show_key_metrics strftime convs l e kb li).1
    ⊆ (main pandas_other strftime capitalize convs kb li).1
  ∧ (∀ rows, StTable rows
             ∉ (main pandas_other strftime capitalize convs kb li).1)
  ∧ (StSubheader "Leads" ∉ (main pandas_other strftime capitalize convs kb li).1)
  ∧ (StSubheader "Escalations"
     ∉ (main pandas_other strftime capitalize convs kb li).1).
Proof.
  intros Hc Hone Hn.
  destruct (show_recent capitalize convs).2 as [[]|err] eqn:Hr.
  { exfalso. apply Hn, show_recent_Ok_iff, Hr. }
  destruct (show_recent_Raise _ _ Hr) as [key ->].
  destruct (classified_details _ _ _ Hc) as [Hl He].
  pose proof (show_data_tables_result convs l e Hl He) as Hres.
  pose proof (show_data_tables_cut convs l e _ Hr) as Hcut.
  destruct (show_key_metrics_Ok convs l e kb li) as [_ Hkm].
  pose proof (show_visualizations_widgets convs) as Hvisw.
  pose proof (show_visualizations_result convs) as Hvis.
  destruct (conv_by_date_one_layout convs _ Hone) as [chart Hchart].
  rewrite Hchart in Hvis.
  rewrite (main_classified _ _ _ _ _ Hc Hvis). cbn [fst snd].
  assert (Forall (λ w, head_widget w || first_tab_widget w = true)
            ([StTitle TITLE; StMarkdown INTRODUCTION]
             ++ (show_key_metrics strftime convs l e kb li).1
             ++ StDivider :: (show_visualizations pandas_other convs).1
             ++ StDivider
                :: (show_data_tables strftime capitalize
                      convs l e).1)) as Hall.
  { apply Forall_app. split; [repeat constructor|].
    apply Forall_app. split.
    { eapply Forall_impl; [exact Hkm|]. intros w ->. reflexivity. }
    apply Forall_cons. split; [reflexivity|].
    apply Forall_app. split.
    { eapply Forall_impl; [exact Hvisw|]. intros w ->. reflexivity. }
    apply Forall_cons. split; [reflexivity|]. exact Hcut. }
  rewrite Forall_forall in Hall.
  split; [exists key; rewrite Hres; exact Hr|].
  split.
  - intros w Hw. apply elem_of_app. right. apply elem_of_app. left. exact Hw.
  - repeat split.
    + intros rows Hin. apply Hall in Hin. discriminate.
    + intros Hin. apply Hall in Hin. discriminate.
    + intros Hin. apply Hall in Hin. discriminate.
Qed.

(** X20: when the batch is classified and its conversations have timestamps
    of the store that do not share one layout, some with microseconds and
    some without, [main] raises [ValueError] at line 97: the metrics and the
    header of the chart are on the page, and neither the chart nor any tab,
    expander, notice or table is drawn. *)
Theorem main_stops_at_mixed_timestamps convs kb li l e :
  classify convs = Ok (l, e) →
  store_timestamps (updated_at <$> convs) →
  ¬ (∃ layout_of_column, one_layout layout_of_column (updated_at <$> convs)) →
  (main pandas_other strftime capitalize convs kb li).2 = Raise ValueError
  ∧ (show_key_metrics strftime convs l e kb li).1
    ⊆ (main pandas_other strftime capitalize convs kb li).1
  ∧ (∀ w, w ∈ (main pandas_other strftime capitalize convs kb li).1 →
          match w with
          | StLineChart _ | StSubheader _ | StTabs _ | StExpander _
          | StWrite _ | StInfo _ | StTable _ => False
          | _ => True
          end).
Proof.
  intros Hc Hstore Hmixed.
  destruct (conv_by_date_store convs Hstore) as [[Hone _]|[_ Hraise]];
    [contradiction|].
  pose proof (show_visualizations_result convs) as Hvis.
  rewrite Hraise in Hvis.
  rewrite (main_uncharted _ _ _ _ _ _ Hc Hvis). cbn [fst snd].
  split; [reflexivity|]. split.
  - intros w Hw. apply elem_of_app. right. apply elem_of_app. left. exact Hw.
  - intros w Hw.
    assert ((show_visualizations pandas_other convs).1
            = [StHeader "📈 Visualizations"]) as Hhead.
    { unfold show_visualizations. unfold_render. rewrite Hraise. reflexivity. }
    rewrite Hhead in Hw.
    apply elem_of_app in Hw as [Hw|Hw].
    { repeat (apply elem_of_cons in Hw as [->|Hw]; [exact I|]).
      apply elem_of_nil in Hw. contradiction. }
    apply elem_of_app in Hw as [Hw|Hw].
    + revert Hw. unfold show_key_metrics. unfold_render.
      destruct (truthy li); simpl; intros Hw;
        repeat (apply elem_of_cons in Hw as [->|Hw]; [exact I|]);
        apply elem_of_nil in Hw; contradiction.
    + repeat (apply elem_of_cons in Hw as [->|Hw]; [exact I|]).
      apply elem_of_nil in Hw. contradiction.
Qed.

(** X16: with no conversation at all, [main] raises nothing, whatever the
    document count and the last ingestion: it shows the three notices that
    stand for the empty tab and tables, and draws no chart, no expander and
    no table. *)
Theorem main_empty kb li :
  (main pandas_other strftime capitalize [] kb li).2 = Ok tt
  ∧ StInfo "No conversations yet."
    ∈ (main pandas_other strftime capitalize [] kb li).1
  ∧ StInfo "No leads generated yet."
    ∈ (main pandas_other strftime capitalize [] kb li).1
  ∧ StInfo "No escalations yet."
    ∈ (main pandas_other strftime capitalize [] kb li).1
  ∧ (∀ w, w ∈ (main pandas_other strftime capitalize [] kb li).1 →
          match w with
          | StLineChart _ | StExpander _ | StWrite _ | StTable _ => False
          | _ => True
          end).
Proof.
  unfold main, show_key_metrics, show_visualizations, show_data_tables,
    show_recent, show_leads, show_escalations, show_table.
  unfold_render. destruct (truthy li); simpl.
  all: split; [reflexivity|].
  all: repeat split;
    try (repeat first [apply list_elem_of_here | apply list_elem_of_further]).
  all: intros w Hw;
    repeat (apply elem_of_cons in Hw as [->|Hw]; [exact I|]);
    apply elem_of_nil in Hw; contradiction.
Qed.

(** *** Rows and matching messages *)





End PageProperties.

Lemma table_rows_sound_witness :
  table_rows sample_strftime LEAD_FILTER [conv_chatty_lead]
  = Ok [mkTableRow "c-4" "2024-01-03 10:00" "I've got a few questions first."]
  ∧ Forall2 (λ conv r,
               row_conversation_id r = conversation_id conv
               ∧ row_last_updated r = sample_strftime (updated_at conv)
               ∧ details LEAD_FILTER conv = Ok (row_details r)
               ∧ contains LEAD_FILTER (row_details r) = true)
      [conv_chatty_lead]
      [mkTableRow "c-4" "2024-01-03 10:00" "I've got a few questions first."].
Proof.
  assert (table_rows sample_strftime LEAD_FILTER [conv_chatty_lead]
          = Ok [mkTableRow "c-4" "2024-01-03 10:00"
                  "I've got a few questions first."]) as Hrs
    by (vm_compute; reflexivity).
  split; [exact Hrs|]. exact (table_rows_sound _ _ _ _ Hrs).
Defined.

Lemma main_stops_at_classification_witness :
  Exists (λ conv, Exists missing_field (get_history conv))
    [conv_trial; conv_malformed]
  ∧ ∃ key, main sample_pandas_other sample_strftime sample_capitalize
             [conv_trial; conv_malformed] (Some 3) None
           = ([StTitle TITLE; StMarkdown INTRODUCTION], Raise (KeyError key)).
Proof.
  assert (Exists (λ conv, Exists missing_field (get_history conv))
            [conv_trial; conv_malformed]) as Hex.
  { apply Exists_cons_tl, Exists_cons_hd, Exists_cons_hd.
    right. split; reflexivity. }
  split; [exact Hex|].
  exact (main_stops_at_classification sample_pandas_other sample_strftime
           sample_capitalize _ (Some 3) None Hex).
Defined.

Lemma store_timestamps_hidden_tables :
  store_timestamps (updated_at <$> batch_hidden_tables).
Proof.
  unfold store_timestamps. simpl.
  repeat (constructor; [eexists; vm_compute; reflexivity|]). constructor.
Qed.

Lemma one_layout_hidden_tables :
  one_layout Seconds (updated_at <$> batch_hidden_tables).
Proof.
  unfold one_layout. simpl.
  repeat (constructor; [right; eexists; vm_compute; reflexivity|]).
  constructor.
Qed.

Lemma store_timestamps_mixed :
  store_timestamps (updated_at <$> batch_mixed_timestamps).
Proof.
  unfold store_timestamps. simpl.
  repeat (constructor; [eexists; vm_compute; reflexivity|]). constructor.
Qed.

Lemma no_layout_mixed :
  ¬ ∃ l, one_layout l (updated_at <$> batch_mixed_timestamps).
Proof.
  intros [l Hl]. unfold one_layout in Hl. simpl in Hl.
  apply Forall_cons in Hl as [[H1|[d1 H1]] Hl]; [discriminate|].
  apply Forall_cons in Hl as [[H2|[d2 H2]] _]; [discriminate|].
  vm_compute in H1, H2. congruence.
Qed.

Lemma main_completes_iff_witness :
  store_timestamps (updated_at <$> batch_mixed_timestamps)
  ∧ ((main sample_pandas_other sample_strftime sample_capitalize
        batch_mixed_timestamps (Some 3) None).2 = Ok tt
     ↔ Forall scannable_conv batch_mixed_timestamps
       ∧ (∃ l, one_layout l (updated_at <$> batch_mixed_timestamps))
       ∧ Forall renderable (recent_conversations batch_mixed_timestamps)).
Proof.
  split; [exact store_timestamps_mixed|].
  exact (main_completes_iff sample_pandas_other sample_strftime
           sample_capitalize _ (Some 3) None store_timestamps_mixed).
Defined.

Lemma main_never_IndexError_witness :
  store_timestamps (updated_at <$> batch_hidden_tables)
  ∧ (main sample_pandas_other sample_strftime sample_capitalize
       batch_hidden_tables (Some 3) None).2 = Raise (KeyError "content")
  ∧ ((∃ key, KeyError "content" = KeyError key)
     ∨ KeyError "content" = ValueError).
Proof.
  assert ((main sample_pandas_other sample_strftime sample_capitalize
             batch_hidden_tables (Some 3) None).2 = Raise (KeyError "content"))
    as Hr by (vm_compute; reflexivity).
  split; [exact store_timestamps_hidden_tables|]. split; [exact Hr|].
  exact (main_never_IndexError sample_pandas_other sample_strftime
           sample_capitalize _ _ _ _ store_timestamps_hidden_tables Hr).
Defined.

Lemma main_page_cut_short_witness :
  classify batch_hidden_tables = Ok ([conv_trial], [conv_human_no_content])
  ∧ one_layout Seconds (updated_at <$> batch_hidden_tables)
  ∧ ¬ Forall renderable (recent_conversations batch_hidden_tables)
  ∧ (∃ key, (main sample_pandas_other sample_strftime sample_capitalize
               batch_hidden_tables (Some 3) None).2 = Raise (KeyError key))
  ∧ ∀ rows, StTable rows
            ∉ (main sample_pandas_other sample_strftime sample_capitalize
                 batch_hidden_tables (Some 3) None).1.
Proof.
  assert (classify batch_hidden_tables
          = Ok ([conv_trial], [conv_human_no_content])) as Hc
    by (vm_compute; reflexivity).
  assert (¬ Forall renderable (recent_conversations batch_hidden_tables))
    as Hn.
  { intros Hall. apply Forall_cons in Hall as [[_ Hwf] _].
    apply Forall_cons in Hwf as [[_ [c Hcont]] _]. discriminate. }
  split; [exact Hc|]. split; [exact one_layout_hidden_tables|].
  split; [exact Hn|].
  destruct (main_page_cut_short sample_pandas_other sample_strftime
              sample_capitalize _ (Some 3) None _ _ _ Hc
              one_layout_hidden_tables Hn) as (Hkey & _ & Htable & _).
  split; [exact Hkey|exact Htable].
Defined.

Lemma main_stops_at_mixed_timestamps_witness :
  classify batch_mixed_timestamps = Ok ([conv_trial], [])
  ∧ store_timestamps (updated_at <$> batch_mixed_timestamps)
  ∧ (¬ ∃ l, one_layout l (updated_at <$> batch_mixed_timestamps))
  ∧ (main sample_pandas_other sample_strftime sample_capitalize
       batch_mixed_timestamps (Some 3) None).2 = Raise ValueError.
Proof.
  assert (classify batch_mixed_timestamps = Ok ([conv_trial], [])) as Hc
    by (vm_compute; reflexivity).
  split; [exact Hc|]. split; [exact store_timestamps_mixed|].
  split; [exact no_layout_mixed|].
  exact (proj1 (main_stops_at_mixed_timestamps sample_pandas_other
                  sample_strftime sample_capitalize _ (Some 3) None _ _ Hc
                  store_timestamps_mixed no_layout_mixed)).
Defined.


(** ** The last ingestion *)

Section IngestionLog.
(** The order of the store's [ORDER BY updated_at DESC]: [later a b] when
    [a] may come before [b]. *)
Variable later : string → string → Prop.

(** X18: when the response holds the first row of the log sorted latest
    first, as the query asks, [fetch_ingestion_log] returns [None] exactly
    for an empty log, and otherwise a timestamp of the log that no other one
    of the log precedes in that order. *)
Theorem fetch_ingestion_log_latest (log sorted : list string) :
  sorted ≡ₚ log →
  StronglySorted later sorted →
  match fetch_ingestion_log (take 1 sorted) with
  | None => log = []
  | Some ts => ts ∈ log ∧ Forall (λ ts', ts' = ts ∨ later ts ts') log
  end.
Proof.
  intros Hperm Hsorted. destruct sorted as [|ts rest]; simpl.
  - apply Permutation_nil_l in Hperm. symmetry. exact Hperm.
  - split; [rewrite <- Hperm; apply list_elem_of_here|].
    rewrite <- Hperm. apply StronglySorted_cons in Hsorted as [Hts _].
    constructor; [left; reflexivity|].
    eapply Forall_impl; [exact Hts|]. intros ts' Hlater. right. exact Hlater.
Qed.
End IngestionLog.

Lemma fetch_ingestion_log_latest_witness :
  ["2024-02-03T00:00:00"; "2024-02-01T00:00:00"]
  ≡ₚ ["2024-02-01T00:00:00"; "2024-02-03T00:00:00"]
  ∧ StronglySorted (λ a b, String.le b a)
      ["2024-02-03T00:00:00"; "2024-02-01T00:00:00"]
  ∧ "2024-02-03T00:00:00"
    ∈ ["2024-02-01T00:00:00"; "2024-02-03T00:00:00"]
  ∧ Forall (λ ts', ts' = "2024-02-03T00:00:00"
                   ∨ String.le ts' "2024-02-03T00:00:00")
      ["2024-02-01T00:00:00"; "2024-02-03T00:00:00"].
Proof.
  assert (["2024-02-03T00:00:00"; "2024-02-01T00:00:00"]
          ≡ₚ ["2024-02-01T00:00:00"; "2024-02-03T00:00:00"]) as Hperm
    by apply Permutation_swap.
  assert (StronglySorted (λ a b, String.le b a)
            ["2024-02-03T00:00:00"; "2024-02-01T00:00:00"]) as Hsorted.
  { repeat constructor. }
  split; [exact Hperm|]. split; [exact Hsorted|].
  exact (fetch_ingestion_log_latest (λ a b, String.le b a) _ _ Hperm Hsorted).
Defined.

(** ** The expanders of the first tab *)

Section Expanders.
Variable capitalize : string → string.

Lemma expanders_app (ws1 ws2 : list (widget)) :
  expanders (ws1 ++ ws2) = expanders ws1 + expanders ws2.
Proof. unfold expanders. rewrite filter_app, length_app. reflexivity. Qed.

Lemma expanders_zero (ws : list (widget)) :
  (∀ w, w ∈ ws → is_expander w = false) → expanders ws = 0.
Proof.
  unfold expanders. induction ws as [|w ws IH]; intros Hall; [reflexivity|].
  rewrite filter_cons, (Hall w (list_elem_of_here _ _)).
  case_decide; [discriminate|].
  apply IH. intros w' Hw'. apply Hall, list_elem_of_further, Hw'.
Qed.

Lemma show_message_no_expander m w :
  w ∈ (show_message capitalize m).1 → is_expander w = false.
Proof.
  unfold show_message, message_content. unfold_render. unfold_result.
  destruct (type m) as [ty|]; simpl;
    [|intros Hw; apply elem_of_nil in Hw; contradiction].
  destruct (data m) as [d|]; simpl;
    [|intros Hw; apply elem_of_nil in Hw; contradiction].
  destruct (content d) as [c|]; simpl;
    [|intros Hw; apply elem_of_nil in Hw; contradiction].
  intros Hw. apply list_elem_of_singleton in Hw as ->. reflexivity.
Qed.

Lemma expanders_lines (h : list Message) :
  expanders (for_each h (show_message capitalize)).1 = 0.
Proof.
  apply expanders_zero. intros w Hw.
  apply for_each_widgets in Hw as (m & _ & Hm).
  apply (show_message_no_expander m w Hm).
Qed.

Lemma expanders_conversation conv :
  expanders (show_conversation capitalize conv).1 = 1.
Proof.
  unfold show_conversation. unfold_render.
  destruct (history conv) as [h|]; simpl; [|reflexivity].
  change (StExpander ("Conversation ID: " +:+ conversation_id conv)
          :: (for_each h (show_message capitalize)).1)
    with ([StExpander
             ("Conversation ID: " +:+ conversation_id conv)]
          ++ (for_each h (show_message capitalize)).1).
  rewrite expanders_app, expanders_lines. reflexivity.
Qed.

Lemma expanders_for_each (convs : list Conversation) :
  expanders (for_each convs (show_conversation capitalize)).1
  ≤ length convs
  ∧ ((for_each convs (show_conversation capitalize)).2 = Ok tt →
     expanders (for_each convs (show_conversation capitalize)).1
     = length convs).
Proof.
  induction convs as [|conv convs [IHle IHeq]]; [split; reflexivity|].
  cbn [for_each]. pose proof (expanders_conversation conv) as Hone.
  unfold mbind, render_bind.
  destruct (show_conversation capitalize conv) as [t [[]|e]]; cbn [fst snd] in *.
  - rewrite expanders_app, Hone. simpl. split; [lia|].
    intros Hok. rewrite (IHeq Hok). reflexivity.
  - rewrite Hone. simpl. split; [lia|discriminate].
Qed.

(** X19: the first tab never holds more than ten expanders, nor more than
    there are conversations; when it is drawn to its end it holds exactly
    [min 10 (length convs)] of them. *)
Theorem show_recent_expanders convs :
  expanders (show_recent capitalize convs).1
  ≤ min 10 (length convs)
  ∧ ((show_recent capitalize convs).2 = Ok tt →
     expanders (show_recent capitalize convs).1
     = min 10 (length convs)).
Proof.
  unfold show_recent. destruct convs as [|c convs]; [split; reflexivity|].
  pose proof (expanders_for_each (take 10 (sorted_convs (c :: convs))))
    as [Hle Heq].
  rewrite length_take, (Permutation_length (sorted_convs_perm (c :: convs)))
    in Hle, Heq.
  remember (for_each (take 10 (sorted_convs (c :: convs)))
              (show_conversation capitalize)) as r eqn:Er.
  destruct r as [t res]. unfold mbind, render_bind, show. cbn [fst snd] in *.
  rewrite expanders_app.
  replace (expanders [StSubheader "Recent Conversations"])
    with 0 by reflexivity.
  split; [exact Hle|exact Heq].
Qed.
End Expanders.

Lemma show_recent_expanders_witness :
  (show_recent sample_capitalize fifteen).2 = Ok tt
  ∧ expanders (show_recent sample_capitalize fifteen).1 = 10.
Proof.
  assert ((show_recent sample_capitalize fifteen).2 = Ok tt)
    as Hok by (vm_compute; reflexivity).
  split; [exact Hok|].
  exact (proj2 (show_recent_expanders sample_capitalize fifteen) Hok).
Defined.
